(** * go-event-sourcing: the event store contract, its two backends, the
      aggregate helper and metadata, embedded from the Go sources.

    Conventions of the embedding.
    - Go's [any] (and so [ges.Event], the values of a [ges.Metadata] and a
      snapshot's state) is one type parameter [any] with the three things
      the code asks of a dynamic value: whether it is nil, whether it has an
      [EventType() string] method, and how [%T] prints its type.
    - [int64] is [Z]; where the code does arithmetic on an arbitrary int64
      the wrap-around is written with [Int64.wrap].
    - A [ges.Metadata] is a Go map, that is a reference: it is modelled as
      an optional location in a heap of map objects, so that sharing and
      mutation are visible.
    - [time.Now()] is an input of the operation that reads the clock.
    - The mutex of the in-memory store is not modelled: operations are run
      one after the other. *)

From Stdlib Require Import ZArith Lia.
From stdpp Require Import gmap strings list fin_maps pretty sorting.

Local Open Scope Z_scope.

(* ===================================================================== *)
(** ** int64 *)
(* ===================================================================== *)

Module Int64.

Definition min_int64 : Z := - 2 ^ 63.
Definition max_int64 : Z := 2 ^ 63 - 1.

Definition in_range (z : Z) : Prop := min_int64 <= z <= max_int64.

(** Two's complement reduction of a mathematical integer to int64. *)
Definition wrap (z : Z) : Z := (z + 2 ^ 63) mod 2 ^ 64 - 2 ^ 63.

Definition add (a b : Z) : Z := wrap (a + b).
Definition sub (a b : Z) : Z := wrap (a - b).

End Int64.

(* ===================================================================== *)
(** ** Package ges: errors, events, metadata, snapshots, Base *)
(* ===================================================================== *)

Module ges.

(** Go error values.  [ErrVersionConflict] is the package-level sentinel
    (one allocation, compared by identity); [fmtError] is the result of
    [fmt.Errorf] without [%w], kept as its format and arguments;
    [wrapError] is the result of [fmt.Errorf] with one [%w];
    [PgError] is pgconn's error with its SQLSTATE code. *)
Inductive error : Type :=
  | ErrVersionConflict
  | VersionConflictError (StreamID : string) (ExpectedVersion ActualVersion : Z)
  | fmtError (format : string) (args : list string)
  | wrapError (format : string) (err : error)
  | PgError (Code : string).

#[global] Instance error_eq_dec : EqDecision error.
Proof. solve_decision. Defined.



(** Results of fallible calls that return [(T, error)]. *)
Inductive result (A : Type) : Type :=
  | Ok (a : A)
  | Err (e : error).
Arguments Ok {A} a.
Arguments Err {A} e.

(** What the code observes of a dynamic Go value. *)
Class GoAny (any : Type) := {
  nil : any;
  (** the result of the value's [EventType() string] method, when its
      dynamic type has one *)
  method_EventType : any -> option string;
  (** fmt.Sprintf("%T", v) *)
  format_T : any -> string
}.

(** [type Event any]: an event is any dynamic value.
    Locations of map objects, the heap of the Go map objects of type
    [map[string]any], and [type Metadata map[string]any]: nil, or a
    reference to a map object. *)
Abbreviation loc := nat (only parsing).
Abbreviation Event any := any (only parsing).
Abbreviation heap any := (gmap nat (gmap string any)) (only parsing).
Abbreviation Metadata := (option nat) (only parsing).

Section Ges.
Context {any : Type} `{GoAny any}.

(** func EventType(e Event) string *)
Definition EventType (e : Event any) : string :=
  match method_EventType e with
  | Some name => name
  | None => format_T e
  end.

(** *** Metadata *)

(** Reading a map value: a nil map reads as the empty map. *)
Definition deref (h : heap any) (m : Metadata) : gmap string any :=
  match m with
  | None => ∅
  | Some l => default ∅ (h !! l)
  end.

(** out[k] = v *)
Definition map_assign (out : loc) (h : heap any) (kv : string * any) : heap any :=
  alter (insert kv.1 kv.2) out h.

(** for k, v := range src { out[k] = v }, visiting the entries in the
    order [entries]. *)
Definition range_assign (out : loc) (h : heap any) (entries : list (string * any)) : heap any :=
  foldl (map_assign out) h entries.

(** The same loop with the entries of [src] in the order the map hands
    them out (Go leaves that order unspecified). *)
Definition range_copy (out : loc) (h : heap any) (src : Metadata) : heap any :=
  range_assign out h (map_to_list (deref h src)).

(** func (m Metadata) Merge(ms ...Metadata) Metadata *)
Definition Merge (h : heap any) (m : Metadata) (ms : list Metadata) : heap any * Metadata :=
  let out := fresh (dom h) in
  let h0 := <[out := ∅]> h in
  let h1 := match m with
            | Some _ => range_copy out h0 m
            | None => h0
            end in
  let h2 := foldl (range_copy out) h1 ms in
  (h2, Some out).

(** type MetadataExtractor func(ctx context.Context) Metadata.
    The function is arbitrary client code: it may allocate. *)
Definition MetadataExtractor (Ctx : Type) : Type := Ctx -> heap any -> heap any * Metadata.

(** The first step of Append in both backends:
      if s.extractor != nil { extracted := s.extractor(ctx); md = extracted.Merge(md) }
    The heap afterwards and the metadata the events are tagged with. *)
Definition merge_extracted {Ctx : Type} (extractor : option (MetadataExtractor Ctx))
    (ctx : Ctx) (h : heap any) (md : Metadata) : heap any * Metadata :=
  match extractor with
  | Some ex => let '(h', extracted) := ex ctx h in Merge h' extracted [md]
  | None => (h, md)
  end.

(** *** Snapshot *)

Definition Time : Type := Z.

Record Snapshot : Type := mkSnapshot {
  State : any;
  Version : Z;
  Found : bool;
  At_ : Time
}.

(** ges.Snapshot{Found: false}: the other fields take their zero values. *)
Definition Snapshot_not_found : Snapshot :=
  {| State := nil; Version := 0; Found := false; At_ := 0 |}.

(** *** Base *)

(** The fields of [Base] other than the applier.  The applier is a
    closure over the aggregate that embeds the Base, so it is kept next to
    the Base in [Agg] rather than inside it. *)
Record Base : Type := mkBase {
  id : string;
  version : Z;
  pending : list (Event any)
}.

(** An aggregate embedding a Base: the Base, the applier installed by
    Init or SetApplier (nil when none), and the aggregate's own fields. *)
Record Agg (D : Type) : Type := mkAgg {
  base : Base;
  applier : option (Event any -> Base * D -> Base * D);
  dom_state : D
}.
Arguments mkAgg {D} base applier dom_state.
Arguments base {D} a.
Arguments applier {D} a.
Arguments dom_state {D} a.

Section Aggregate.
Context {D : Type}.

(** func (b *Base) Init(streamID string, applier func(Event)) *)
Definition Init (streamID : string) (f : option (Event any -> Base * D -> Base * D))
    (a : Agg D) : Agg D :=
  {| base := {| id := streamID; version := version (base a); pending := pending (base a) |};
     applier := f;
     dom_state := dom_state a |}.

(** func (b *Base) StreamID() string *)
Definition StreamID (b : Base) : string := id b.

(** func (b *Base) SetStreamID(streamID string) *)
Definition SetStreamID (streamID : string) (b : Base) : Base :=
  {| id := streamID; version := version b; pending := pending b |}.

(** func (b *Base) SetApplier(applier func(Event)) *)
Definition SetApplier (f : option (Event any -> Base * D -> Base * D)) (a : Agg D) : Agg D :=
  {| base := base a; applier := f; dom_state := dom_state a |}.

(** func (b *Base) SetVersion(v int64) *)
Definition SetVersion (v : Z) (b : Base) : Base :=
  {| id := id b; version := v; pending := pending b |}.

(** The call [b.applier(e)] guarded by [b.applier != nil]. *)
Definition call_applier (e : Event any) (a : Agg D) : Agg D :=
  match applier a with
  | Some f => let '(b', d') := f e (base a, dom_state a) in
              {| base := b'; applier := applier a; dom_state := d' |}
  | None => a
  end.

(** func (b *Base) Apply(e Event) *)
Definition Apply (e : Event any) (a : Agg D) : Agg D :=
  let a1 := call_applier e a in
  {| base := {| id := id (base a1);
                version := Int64.add (version (base a1)) 1;
                pending := pending (base a1) |};
     applier := applier a1;
     dom_state := dom_state a1 |}.

(** func (b *Base) Raise(e Event) *)
Definition Raise (e : Event any) (a : Agg D) : Agg D :=
  let a1 := Apply e a in
  {| base := {| id := id (base a1);
                version := version (base a1);
                pending := pending (base a1) ++ [e] |};
     applier := applier a1;
     dom_state := dom_state a1 |}.

(** Raise called for each event of [es] in turn. *)
Definition Raise_all (es : list (Event any)) (a : Agg D) : Agg D :=
  foldl (fun a e => Raise e a) a es.

(** The applier leaves the pending buffer of the Base alone. *)
Definition applier_keeps_pending (a : Agg D) : Prop :=
  forall f e st, applier a = Some f -> pending (f e st).1 = pending st.1.

(** Apply called for each event of [es] in turn: the replay loop of an
    aggregate's Restore. *)
Definition Apply_all (es : list (Event any)) (a : Agg D) : Agg D :=
  foldl (fun a e => Apply e a) a es.

(** The applier changes neither the version nor the pending buffer of
    the Base. *)
Definition applier_keeps_bookkeeping (a : Agg D) : Prop :=
  forall f e st, applier a = Some f ->
    version (f e st).1 = version st.1 /\ pending (f e st).1 = pending st.1.

End Aggregate.

(** func (b *Base) Flush() (events []Event, expectedVersion int64):
    the returned pair and the Base afterwards. *)
Definition Flush (b : Base) : (list (Event any) * Z) * Base :=
  let events := pending b in
  let expectedVersion := Int64.sub (version b) (Z.of_nat (length events)) in
  ((events, expectedVersion),
   {| id := id b; version := version b; pending := [] |}).

(** func (b *Base) Version() int64 *)
Definition Base_Version (b : Base) : Z := version b.

(** *** EventCodec *)

Definition bytes : Type := list Byte.byte.

(** type EventCodec interface { Encode(v any) ([]byte, error);
                                Decode(b []byte) (any, error) } *)
Record EventCodec : Type := mkCodec {
  Encode : any -> result bytes;
  Decode : bytes -> result any
}.

End Ges.

Arguments MetadataExtractor : clear implicits.
Arguments Snapshot : clear implicits.
Arguments Base : clear implicits.
Arguments Agg : clear implicits.
Arguments mkAgg {any D} base applier dom_state.
Arguments base {any D} a.
Arguments applier {any D} a.
Arguments dom_state {any D} a.
Arguments EventCodec : clear implicits.

End ges.

(* ===================================================================== *)
(** ** Package mem: the in-memory store *)
(* ===================================================================== *)

Module mem.
Import ges.

Section Mem.
Context {any : Type} `{GoAny any} {Ctx : Type}.

Record storedEvent : Type := mkStoredEvent {
  version : Z;
  payload : Event any;
  metadata : Metadata;
  typ : string;
  at_ : Time
}.

Record snapshot : Type := mkSnap {
  snap_version : Z;
  snap_state : any;
  snap_at : Time
}.

Record Store : Type := mkStore {
  streams : gmap string (list storedEvent);
  snapshots : gmap string snapshot;
  extractor : option (MetadataExtractor any Ctx)
}.

(** type Option func(s *Store) *)
Definition Option : Type := Store -> Store.

(** func WithMetadataExtractor(ex ges.MetadataExtractor) Option;
    [ex] may be the nil function. *)
Definition WithMetadataExtractor (ex : option (MetadataExtractor any Ctx)) : Option :=
  fun s => {| streams := streams s; snapshots := snapshots s; extractor := ex |}.

(** func New(opts ...Option) *Store *)
Definition New (opts : list Option) : Store :=
  let st := {| streams := ∅; snapshots := ∅; extractor := None |} in
  foldl (fun st opt => opt st) st opts.

(** Reading a Go map of slices at a missing key gives the nil slice. *)
Definition stream_of (s : Store) (streamID : string) : list storedEvent :=
  default [] (streams s !! streamID).

(** The body of the loop of Append for one event:
    currentVersion++ ; seq = append(seq, storedEvent{...}).
    [currentVersion] starts at len(seq) and a slice never holds more than
    MaxInt elements, so this increment cannot wrap. *)
Definition append_one (md : Metadata) (now : Time)
    (acc : list storedEvent * Z) (e : Event any) : list storedEvent * Z :=
  let currentVersion := acc.2 + 1 in
  (acc.1 ++ [ {| version := currentVersion;
                 payload := e;
                 metadata := md;
                 typ := EventType e;
                 at_ := now |} ],
   currentVersion).

(** The stored events a batch becomes when it is appended to a stream
    whose last version is [currentVersion]. *)
Fixpoint stamped (md : Metadata) (now : Time) (currentVersion : Z)
    (events : list (Event any)) : list storedEvent :=
  match events with
  | [] => []
  | e :: rest =>
      {| version := currentVersion + 1;
         payload := e;
         metadata := md;
         typ := EventType e;
         at_ := now |} :: stamped md now (currentVersion + 1) rest
  end.

(** func (s *Store) Append(ctx, streamID, expectedVersion, events, md)
      (int64, error)
    The heap and the store after the call, and the returned pair. *)
Definition Append (h : heap any) (s : Store) (ctx : Ctx) (now : Time)
    (streamID : string) (expectedVersion : Z) (events : list (Event any))
    (md : Metadata) : heap any * Store * (Z * option error) :=
  let '(h1, md1) := merge_extracted (extractor s) ctx h md in
  let seq := stream_of s streamID in
  let currentVersion := Z.of_nat (length seq) in
  if negb (currentVersion =? expectedVersion) then
    (h1, s, (0, Some (VersionConflictError streamID expectedVersion currentVersion)))
  else if (length events =? 0)%nat then
    (h1, s, (expectedVersion, None))
  else
    let '(seq', currentVersion') :=
      foldl (append_one md1 now) (seq, currentVersion) events in
    (h1,
     {| streams := <[streamID := seq']> (streams s);
        snapshots := snapshots s;
        extractor := extractor s |},
     (currentVersion', None)).

(** func (s *Store) Load(_, streamID, fromVersion) ([]ges.Event, int64, error) *)
Definition Load (s : Store) (streamID : string) (fromVersion : Z)
    : list (Event any) * Z * option error :=
  let seq := stream_of s streamID in
  if (length seq =? 0)%nat then ([], 0, None)
  else
    let len := Z.of_nat (length seq) in
    let start := fromVersion in
    let start := if start <? 0 then 0 else start in
    let start := if start >? len then len else start in
    (* for i := start; i < len(seq); i++ { out = append(out, seq[i].payload) } *)
    let out := payload <$> drop (Z.to_nat start) seq in
    let last := match seq !! (length seq - 1)%nat with
                | Some e => version e
                | None => 0
                end in
    (out, last, None).

(** func (s *Store) SaveSnapshot(_, streamID, version, state) error *)
Definition SaveSnapshot (s : Store) (now : Time) (streamID : string)
    (v : Z) (state : any) : Store * option error :=
  ({| streams := streams s;
      snapshots := <[streamID := {| snap_version := v; snap_state := state; snap_at := now |}]>
                     (snapshots s);
      extractor := extractor s |},
   None).

(** func (s *Store) LoadSnapshot(_, streamID) (ges.Snapshot, error) *)
Definition LoadSnapshot (s : Store) (streamID : string) : Snapshot any * option error :=
  match snapshots s !! streamID with
  | None => (Snapshot_not_found, None)
  | Some snap =>
      ({| State := snap_state snap;
          Version := snap_version snap;
          Found := true;
          At_ := snap_at snap |},
       None)
  end.

(** *** Histories of calls *)

(** One call of the store's interface with its arguments (and the clock
    reading, where the call reads the clock). *)
Inductive call : Type :=
  | CallAppend (ctx : Ctx) (now : Time) (streamID : string)
      (expectedVersion : Z) (events : list (Event any)) (md : Metadata)
  | CallLoad (streamID : string) (fromVersion : Z)
  | CallSaveSnapshot (now : Time) (streamID : string) (v : Z) (state : any)
  | CallLoadSnapshot (streamID : string).

(** The effect of one call on the heap and the store; results are dropped. *)
Definition exec (st : heap any * Store) (c : call) : heap any * Store :=
  match c with
  | CallAppend ctx now streamID expectedVersion events md =>
      (Append st.1 st.2 ctx now streamID expectedVersion events md).1
  | CallLoad streamID fromVersion =>
      let _ := Load st.2 streamID fromVersion in st
  | CallSaveSnapshot now streamID v state =>
      (st.1, (SaveSnapshot st.2 now streamID v state).1)
  | CallLoadSnapshot streamID =>
      let _ := LoadSnapshot st.2 streamID in st
  end.

Definition run (st : heap any * Store) (cs : list call) : heap any * Store :=
  foldl exec st cs.

(** The states of a store made by [New] with the exported option, after
    any history of calls. *)
Definition reachable (st : heap any * Store) : Prop :=
  exists (h0 : heap any) (exs : list (option (MetadataExtractor any Ctx))) (cs : list call),
    st = run (h0, New (WithMetadataExtractor <$> exs)) cs.

(** The stream's current version: what Append compares expectedVersion to. *)
Definition current_version (s : Store) (streamID : string) : Z :=
  Z.of_nat (length (stream_of s streamID)).

(** Versions 1, 2, ..., n in storage order. *)
Definition gapless (seq : list storedEvent) : Prop :=
  forall (i : nat) (e : storedEvent), seq !! i = Some e -> version e = Z.of_nat i + 1.

(** Every stream of the store has gapless versions. *)
Definition versions_ok (s : Store) : Prop :=
  forall streamID : string, gapless (stream_of s streamID).

(** The version of the last stored event, 0 for an empty stream. *)
Definition last_version (seq : list storedEvent) : Z :=
  match last seq with
  | Some e => version e
  | None => 0
  end.

Definition is_save_for (streamID : string) (c : call) : bool :=
  match c with
  | CallSaveSnapshot _ sid _ _ => bool_decide (sid = streamID)
  | _ => false
  end.

End Mem.

Arguments storedEvent : clear implicits.
Arguments snapshot : clear implicits.
Arguments Store : clear implicits.
Arguments call : clear implicits.

End mem.

(* ===================================================================== *)
(** ** Package pgx: the PostgreSQL store *)
(* ===================================================================== *)

Module pgx.
Import ges.

(** func pgErrorCode(err error) string: errors.As finds the first
    *pgconn.PgError on the Unwrap chain. *)
Fixpoint pgErrorCode (err : error) : string :=
  match err with
  | PgError code => code
  | wrapError _ inner => pgErrorCode inner
  | _ => EmptyString
  end.

(** func isUniqueViolation(err error) bool *)
Definition isUniqueViolation (err : error) : bool :=
  bool_decide (pgErrorCode err = "23505"%string).

(** A row of table [events], with the columns the INSERT of Append names
    (event_id and at take their defaults). *)
Record event_row : Type := mkRow {
  stream_id : string;
  version : Z;
  event_type : string;
  payload : bytes;
  metadata : bytes
}.

(** The database: the rows of table [events] in insertion order.  The
    connection is taken to work: Begin, QueryRow and Commit succeed, and
    Exec fails only where the table's constraints make it fail. *)
Definition table : Type := list event_row.

(** SELECT COALESCE(MAX(version), 0) FROM events WHERE stream_id = $1 *)
Definition select_current_version (db : table) (streamID : string) : Z :=
  match version <$> filter (fun r => stream_id r = streamID) db with
  | [] => 0
  | v :: vs => foldl Z.max v vs
  end.

(** PRIMARY KEY (stream_id, version) *)
Definition key_taken (db : table) (streamID : string) (v : Z) : bool :=
  existsb (fun r => bool_decide (stream_id r = streamID) && (version r =? v)) db.

(** INSERT INTO events (stream_id, version, event_type, payload, metadata)
    VALUES ($1, $2, $3, $4, $5) *)
Definition exec_insert (db : table) (r : event_row) : result table :=
  if key_taken db (stream_id r) (version r)
  then Err (PgError "23505")
  else Ok (db ++ [r]).

Section Pgx.
Context {any : Type} `{GoAny any} {Ctx : Type}.

(** json.Marshal of a Metadata value: of nil ([None]) or of the contents
    of the map. *)
Variable json_Marshal : option (gmap string any) -> result bytes.

Record EventStore : Type := mkEventStore {
  typeRegistry : gmap string (EventCodec any);
  extractor : option (MetadataExtractor any Ctx)
}.

(** type Option func(s *EventStore) *)
Definition Option : Type := EventStore -> EventStore.

(** func WithTypeRegistry(reg map[string]ges.EventCodec) Option *)
Definition WithTypeRegistry (reg : gmap string (EventCodec any)) : Option :=
  fun s => {| typeRegistry := reg; extractor := extractor s |}.

(** func WithMetadataExtractor(ex ges.MetadataExtractor) Option *)
Definition WithMetadataExtractor (ex : option (MetadataExtractor any Ctx)) : Option :=
  fun s => {| typeRegistry := typeRegistry s; extractor := ex |}.

(** func NewEventStore(pool *pgxpool.Pool, opts ...Option) *EventStore *)
Definition NewEventStore (opts : list Option) : EventStore :=
  let s := {| typeRegistry := ∅; extractor := None |} in
  foldl (fun s opt => opt s) s opts.

(** What json.Marshal(md) is given: nil, or the map the reference holds. *)
Definition md_value (h : heap any) (md : Metadata) : option (gmap string any) :=
  match md with
  | None => None
  | Some l => Some (default ∅ (h !! l))
  end.

(** The loop of Append over the batch, inside the transaction [tx]:
    the rows of the transaction and the last assigned version, or the
    error the loop returns with. *)
Fixpoint insert_events (s : EventStore) (h : heap any) (md : Metadata)
    (streamID : string) (expectedVersion : Z)
    (tx : table) (currentVersion : Z) (events : list (Event any))
    : result (table * Z) :=
  match events with
  | [] => Ok (tx, currentVersion)
  | e :: rest =>
      let eventType := EventType e in
      match typeRegistry s !! eventType with
      | None =>
          Err (fmtError "ges-pgx: no codec registered for event type %q" [eventType])
      | Some codec =>
          match Encode codec e with
          | Err err => Err (wrapError "ges-pgx: could not encode event: %w" err)
          | Ok payload =>
              match json_Marshal (md_value h md) with
              | Err err => Err (wrapError "ges-pgx: could not encode metadata: %w" err)
              | Ok meta =>
                  let currentVersion := Int64.add currentVersion 1 in
                  match exec_insert tx {| stream_id := streamID;
                                          version := currentVersion;
                                          event_type := eventType;
                                          payload := payload;
                                          metadata := meta |} with
                  | Err err =>
                      if isUniqueViolation err then
                        Err (VersionConflictError streamID expectedVersion currentVersion)
                      else
                        Err (wrapError "ges-pgx: could not insert event: %w" err)
                  | Ok tx' =>
                      insert_events s h md streamID expectedVersion tx' currentVersion rest
                  end
              end
          end
      end
  end.

(** func (s *EventStore) Append(ctx, streamID, expectedVersion, events, md)
      (int64, error)
    The heap and the table after the call, and the returned pair.  A
    return with an error runs the deferred Rollback: the table is the one
    before the call. *)
Definition Append (h : heap any) (db : table) (s : EventStore) (ctx : Ctx)
    (streamID : string) (expectedVersion : Z) (events : list (Event any))
    (md : Metadata) : heap any * table * (Z * option error) :=
  let '(h1, md1) := merge_extracted (extractor s) ctx h md in
  let currentVersion := select_current_version db streamID in
  if negb (currentVersion =? expectedVersion) then
    (h1, db, (0, Some (VersionConflictError streamID expectedVersion currentVersion)))
  else if (length events =? 0)%nat then
    (* Commit of a transaction that wrote nothing *)
    (h1, db, (expectedVersion, None))
  else
    match insert_events s h1 md1 streamID expectedVersion db currentVersion events with
    | Err err => (h1, db, (0, Some err))
    | Ok (tx, currentVersion') => (h1, tx, (currentVersion', None))
    end.

(** The missing-codec error of Append. *)
Definition is_missing_codec (err : error) : Prop :=
  exists eventType : string,
    err = fmtError "ges-pgx: no codec registered for event type %q" [eventType].


(** *** Load *)

(** ORDER BY version ASC, as an insertion sort. *)
Fixpoint insert_by_version (r : event_row) (rows : list event_row)
    : list event_row :=
  match rows with
  | [] => [r]
  | r' :: rest =>
      if version r <=? version r' then r :: rows
      else r' :: insert_by_version r rest
  end.

Definition order_by_version (rows : list event_row) : list event_row :=
  foldr insert_by_version [] rows.

(** SELECT version, event_type, payload FROM events
    WHERE stream_id = $1 AND version > $2 ORDER BY version ASC *)
Definition select_events (db : table) (streamID : string) (fromVersion : Z)
    : list event_row :=
  order_by_version
    (filter (fun r => stream_id r = streamID /\ fromVersion < version r) db).

(** The text a JSONB column hands back for a stored document (Postgres
    keeps the JSON value, not its spelling). *)
Variable jsonb_text : bytes -> bytes.

(** The loop of Load over the rows of the query: the events decoded so
    far and the last version read, or the error the loop returns with. *)
Fixpoint decode_rows (s : EventStore) (rows : list event_row)
    (out : list (Event any)) (last : Z) : result (list (Event any) * Z) :=
  match rows with
  | [] => Ok (out, last)
  | r :: rest =>
      match typeRegistry s !! event_type r with
      | None => Err (fmtError "unknown event type: %s" [event_type r])
      | Some codec =>
          match Decode codec (jsonb_text (payload r)) with
          | Err err => Err (wrapError "ges-pgx: could not decode event: %w" err)
          | Ok ev => decode_rows s rest (out ++ [ev]) (version r)
          end
      end
  end.

(** func (s *EventStore) Load(ctx, streamID, fromVersion)
      ([]ges.Event, int64, error) *)
Definition Load (db : table) (s : EventStore) (streamID : string)
    (fromVersion : Z) : list (Event any) * Z * option error :=
  match decode_rows s (select_events db streamID fromVersion) [] 0 with
  | Err err => ([], 0, Some err)
  | Ok (out, last) => (out, last, None)
  end.

(** *** Snapshots *)

(** A row of table [snapshots]; stream_id, the primary key, is the key
    of the map. *)
Record snapshot_row : Type := mkSnapshotRow {
  snap_version : Z;
  snap_state : bytes;
  snap_at : Time
}.

(** json.Marshal(state), and json.Unmarshal(raw, &state) with
    [state map[string]any], the decoded map boxed as an [any]. *)
Variable json_Marshal_state : any -> result bytes.
Variable json_Unmarshal_object : bytes -> result any.

(** func (s *EventStore) SaveSnapshot(ctx, streamID, version, state) error
    [now] is the database's now(), the default of column [at].
    INSERT ... ON CONFLICT (stream_id) DO UPDATE sets version and state
    of the existing row and nothing else. *)
Definition SaveSnapshot (snaps : gmap string snapshot_row) (now : Time)
    (streamID : string) (v : Z) (state : any)
    : gmap string snapshot_row * option error :=
  match json_Marshal_state state with
  | Err err => (snaps, Some err)
  | Ok data =>
      (match snaps !! streamID with
       | None =>
           <[streamID := {| snap_version := v; snap_state := data; snap_at := now |}]>
             snaps
       | Some old =>
           <[streamID := {| snap_version := v; snap_state := data;
                            snap_at := snap_at old |}]> snaps
       end,
       None)
  end.

(** func (s *EventStore) LoadSnapshot(ctx, streamID) (ges.Snapshot, error) *)
Definition LoadSnapshot (snaps : gmap string snapshot_row) (streamID : string)
    : Snapshot any * option error :=
  match snaps !! streamID with
  | None => (Snapshot_not_found, None)
  | Some row =>
      match json_Unmarshal_object (jsonb_text (snap_state row)) with
      | Err err =>
          (Snapshot_not_found,
           Some (wrapError "ges-pgx: could not unmarshal snapshot: %w" err))
      | Ok state =>
          ({| State := state;
              Version := snap_version row;
              Found := true;
              At_ := snap_at row |},
           None)
      end
  end.

(** PRIMARY KEY (stream_id, version): no two rows share their key. *)
Definition keys_unique (db : table) : Prop :=
  forall (i j : nat) (ri rj : event_row),
    db !! i = Some ri -> db !! j = Some rj ->
    stream_id ri = stream_id rj -> version ri = version rj -> i = j.

(** The rows of a stream lie in the table in ascending version order. *)
Definition stream_ascending (db : table) (streamID : string) : Prop :=
  forall (i j : nat) (ri rj : event_row),
    db !! i = Some ri -> db !! j = Some rj ->
    stream_id ri = streamID -> stream_id rj = streamID ->
    (i < j)%nat -> version ri < version rj.

End Pgx.

Arguments EventStore : clear implicits.

End pgx.

(* ===================================================================== *)
(** ** The example aggregate that keeps its own bookkeeping *)
(* ===================================================================== *)

Module account.

(** What the type switches of Account look at in an event. *)
Inductive event_view : Type :=
  | AccountOpened (AccountID Owner : string) (Initial : Z)
  | MoneyDeposited (Amount : Z)
  | OtherEvent.

Section Account.
Context {any : Type}.
Variable view : any -> event_view.

Record Account : Type := mkAccount {
  id : string;
  owner : string;
  balance : Z;
  version : Z;
  pend : list any;
  opened : bool
}.

(** func (a *Account) Apply(e ges.Event) *)
Definition Apply (e : any) (a : Account) : Account :=
  let a1 :=
    match view e with
    | AccountOpened accountID o initial =>
        {| id := accountID; owner := o; balance := initial;
           version := version a; pend := pend a; opened := true |}
    | MoneyDeposited amount =>
        {| id := id a; owner := owner a; balance := Int64.add (balance a) amount;
           version := version a; pend := pend a; opened := opened a |}
    | OtherEvent => a
    end in
  {| id := id a1; owner := owner a1; balance := balance a1;
     version := Int64.add (version a1) 1; pend := pend a1; opened := opened a1 |}.

(** func (a *Account) record(e ges.Event) *)
Definition record (e : any) (a : Account) : Account :=
  let a1 := Apply e a in
  {| id := id a1; owner := owner a1; balance := balance a1;
     version := version a1; pend := pend a1 ++ [e]; opened := opened a1 |}.

(** record called for each event of [es] in turn. *)
Definition record_all (es : list any) (a : Account) : Account :=
  foldl (fun a e => record e a) a es.

(** func (a *Account) Restore(events []ges.Event) *)
Definition Restore (events : list any) (a : Account) : Account :=
  foldl (fun a e => Apply e a) a events.

(** func (a *Account) Flush() ([]ges.Event, int64) *)
Definition Flush (a : Account) : (list any * Z) * Account :=
  let n := Z.of_nat (length (pend a)) in
  let expected := Int64.sub (version a) n in
  let evs := pend a in
  ((evs, expected),
   {| id := id a; owner := owner a; balance := balance a;
      version := version a; pend := []; opened := opened a |}).

(** func (a *Account) Version() int64 *)
Definition Version (a : Account) : Z := version a.

(** func (a *Account) StreamID() string *)
Definition StreamID (a : Account) : string := ("Account:" ++ id a)%string.

(** *** Commands *)

(** What the type switch of Handle looks at in a command; for other
    values, their type as [%T] prints it. *)
Inductive command_view : Type :=
  | OpenAccountCommand (AccountID Owner : string) (Initial : Z)
  | DepositCommand (AccountID : string) (Amount : Z)
  | OtherCommand (type_name : string).

Variable command : any -> command_view.

(** The event values Handle builds: AccountOpened{...} and
    MoneyDeposited{...} as dynamic values. *)
Variable event_value : event_view -> any.

(** func (a *Account) Balance() int64 *)
Definition Balance (a : Account) : Z := balance a.

(** func (a *Account) Handle(cmd any) error *)
Definition Handle (cmd : any) (a : Account) : Account * option ges.error :=
  match command cmd with
  | OpenAccountCommand accountID o initial =>
      if opened a then
        (a, Some (ges.fmtError "account already opened" []))
      else if bool_decide (accountID = ""%string) then
        (a, Some (ges.fmtError "empty account id" []))
      else if initial <? 0 then
        (a, Some (ges.fmtError "initial balance cannot be negative" []))
      else
        (record (event_value (AccountOpened accountID o initial)) a, None)
  | DepositCommand _ amount =>
      if negb (opened a) then
        (a, Some (ges.fmtError "account not opened" []))
      else if amount <=? 0 then
        (a, Some (ges.fmtError "invalid deposit amount" []))
      else
        (record (event_value (MoneyDeposited amount)) a, None)
  | OtherCommand type_name =>
      (a, Some (ges.fmtError "unknown command type %T" [type_name]))
  end.

(** var a Account: the zero value. *)
Definition zero : Account :=
  {| id := ""; owner := ""; balance := 0; version := 0; pend := []; opened := false |}.

(** The account with its pending buffer emptied. *)
Definition flushed (a : Account) : Account :=
  {| id := id a; owner := owner a; balance := balance a;
     version := version a; pend := []; opened := opened a |}.

End Account.

Arguments Account : clear implicits.

End account.

(* ===================================================================== *)
(** ** The example's repository and service, on the in-memory store *)
(* ===================================================================== *)

Module repository.
Import ges.

(** func HasPrefix / TrimPrefix of package strings, through the rest of
    [s] after [prefix] when [s] starts with it. *)
Fixpoint after_prefix (prefix s : string) : option string :=
  match prefix, s with
  | EmptyString, _ => Some s
  | String a prefix', String b s' =>
      if Ascii.eqb a b then after_prefix prefix' s' else None
  | String _ _, EmptyString => None
  end.

Definition HasPrefix (s prefix : string) : bool :=
  match after_prefix prefix s with Some _ => true | None => false end.

Definition TrimPrefix (s prefix : string) : string :=
  match after_prefix prefix s with Some rest => rest | None => s end.

(** const accountPrefix = "Account:" *)
Definition accountPrefix : string := "Account:".

(** func accountIDFromStreamID(s string) string *)
Definition accountIDFromStreamID (s : string) : string :=
  if HasPrefix s accountPrefix then TrimPrefix s accountPrefix else s.

(** type AccountSnapshot struct *)
Record AccountSnapshot : Type := mkAccountSnapshot {
  ID : string;
  Owner : string;
  Balance : Z;
  Version : Z
}.

Section Repository.
Context {any : Type} `{GoAny any} {Ctx : Type}.
Variable view : any -> account.event_view.
Variable command : any -> account.command_view.
Variable event_value : account.event_view -> any.

(** [snap.State == nil], and the two JSON steps of decodeSnapshot:
    json.Marshal(snap.State) then json.Unmarshal(raw, &out). *)
Variable is_nil : any -> bool.
Variable json_to_snapshot : any -> result AccountSnapshot.

(** func serializeState(a *Account) any, before it is boxed. *)
Definition serializeState (a : account.Account any) : AccountSnapshot :=
  {| ID := accountIDFromStreamID (account.StreamID a);
     Owner := account.owner a;
     Balance := account.balance a;
     Version := account.version a |}.

(** func decodeSnapshot(snap ges.Snapshot) (AccountSnapshot, bool, error) *)
Definition decodeSnapshot (snap : Snapshot any)
    : AccountSnapshot * bool * option error :=
  let none := {| ID := ""; Owner := ""; Balance := 0; Version := 0 |} in
  if negb (Found snap) || is_nil (State snap) then (none, false, None)
  else
    match json_to_snapshot (State snap) with
    | Err err => (none, false, Some err)
    | Ok out => (out, true, None)
    end.

(** The assignments of Load from a decoded snapshot. *)
Definition seed (s : AccountSnapshot) (a : account.Account any)
    : account.Account any :=
  {| account.id := ID s;
     account.owner := Owner s;
     account.balance := Balance s;
     account.version := Version s;
     account.pend := account.pend a;
     account.opened := negb (bool_decide (ID s = ""%string)) |}.

(** func (r *AccountRepository) Load(ctx, id), returning the account or the error *)
Definition Load (st : mem.Store any Ctx) (id : string)
    : result (account.Account any) :=
  let streamID := ("Account:" ++ id)%string in
  let a := account.zero in
  let '(snap, err) := mem.LoadSnapshot st streamID in
  match err with
  | Some e => Err e
  | None =>
      let '(s, ok, err) := decodeSnapshot snap in
      match err with
      | Some e => Err e
      | None =>
          let a := if ok then seed s a else a in
          let '(evs, last, err) := mem.Load st streamID (account.Version a) in
          match err with
          | Some e => Err e
          | None =>
              let a := account.Restore view evs a in
              if negb (last =? account.Version a) then
                Err (fmtError "version mismatch after Restore: aggregate=%d, store=%d"
                       [pretty (account.Version a); pretty last])
              else Ok a
          end
      end
  end.

(** func (r *AccountRepository) Save(ctx, a, md) error
    The heap, the store and the account after the call, and the error. *)
Definition Save (h : heap any) (st : mem.Store any Ctx) (ctx : Ctx) (now : Time)
    (a : account.Account any) (md : Metadata)
    : heap any * mem.Store any Ctx * account.Account any * option error :=
  let '((evs, expected), a1) := account.Flush a in
  if (length evs =? 0)%nat then (h, st, a1, None)
  else
    let '(h1, st1, (_, err)) :=
      mem.Append h st ctx now (account.StreamID a1) expected evs md in
    (h1, st1, a1, err).

(** func extractAccountID(cmd any) string *)
Definition extractAccountID (cmd : any) : string :=
  match command cmd with
  | account.OpenAccountCommand accountID _ _ => accountID
  | account.DepositCommand accountID _ => accountID
  | account.OtherCommand _ => ""%string
  end.

(** func (s *AccountService) Handle(ctx, cmd, md) error
    The heap and the store after the call, and the error. *)
Definition service_Handle (h : heap any) (st : mem.Store any Ctx) (ctx : Ctx)
    (now : Time) (cmd : any) (md : Metadata)
    : heap any * mem.Store any Ctx * option error :=
  let id := extractAccountID cmd in
  match Load st id with
  | Err e => (h, st, Some e)
  | Ok acc =>
      let '(acc1, err) := account.Handle view command event_value cmd acc in
      match err with
      | Some e => (h, st, Some e)
      | None =>
          let '(h1, st1, _, err) := Save h st ctx now acc1 md in
          (h1, st1, err)
      end
  end.

End Repository.

End repository.

(* ===================================================================== *)
(** ** Sample values: the events of the compliance suite and of the
       account example *)
(* ===================================================================== *)

Module sample.
Import ges.

(** A small universe of dynamic values: nil, strings, the two events of
    package storetest and the two events of the account example. *)
Inductive value : Type :=
  | Nil
  | Str (s : string)
  | Opened (ID : string)
  | Added (N : Z)
  | AccountOpened (AccountID Owner : string) (Initial : Z)
  | MoneyDeposited (Amount : Z).

#[global] Instance value_any : GoAny value := {|
  nil := Nil;
  method_EventType v :=
    match v with
    | Opened _ => Some "Opened"%string
    | Added _ => Some "Added"%string
    | AccountOpened _ _ _ => Some "AccountOpened"%string
    | MoneyDeposited _ => Some "MoneyDeposited"%string
    | _ => None
    end;
  format_T v :=
    match v with
    | Nil => "<nil>"%string
    | Str _ => "string"%string
    | Opened _ => "storetest.Opened"%string
    | Added _ => "storetest.Added"%string
    | AccountOpened _ _ _ => "main.AccountOpened"%string
    | MoneyDeposited _ => "main.MoneyDeposited"%string
    end
|}.

(** A codec for the sample events: it writes the type name, and reads
    nothing back. *)
Definition name_codec : EventCodec value :=
  {| Encode v := Ok (String.list_byte_of_string (EventType v));
     Decode b := Err (fmtError "sample: cannot decode" []) |}.

(** func Registry() map[string]ges.EventCodec, with [name_codec] in
    place of the JSON codecs. *)
Definition Registry : gmap string (EventCodec value) :=
  {[ "Opened"%string := name_codec; "Added"%string := name_codec ]}.

(** A marshaller of metadata for the sample histories. *)
Definition marshal_any (m : option (gmap string value)) : result bytes :=
  Ok [].

(** The type switch of the account example on the sample values. *)
Definition view (v : value) : account.event_view :=
  match v with
  | AccountOpened a o i => account.AccountOpened a o i
  | MoneyDeposited n => account.MoneyDeposited n
  | _ => account.OtherEvent
  end.

(** The applier of the account example that embeds ges.Base:
    func (a *Account) when(e ges.Event), on (owner, balance, opened). *)
Definition when (e : value) (st : Base value * (string * Z * bool))
    : Base value * (string * Z * bool) :=
  match e with
  | AccountOpened accountID o initial =>
      (SetStreamID ("Account:" ++ accountID)%string st.1,
       (o, initial, true))
  | MoneyDeposited amount =>
      let '(o, b, op) := st.2 in (st.1, (o, Int64.add b amount, op))
  | _ => st
  end.

(** The extractor of the metadata scenario: it allocates the map
    {tenant: t1, user: u1}. *)
Definition tenant_extractor : MetadataExtractor value unit :=
  fun _ h =>
    let l := fresh (dom h) in
    (<[l := {[ "tenant"%string := Str "t1"; "user"%string := Str "u1" ]}]> h, Some l).

(** The heap of the metadata scenario: at 0 the extracted map
    {tenant: t1, user: u1}, at 1 the explicit map {user: u2}. *)
Definition scenario_heap : heap value :=
  {[ 0%nat := {[ "tenant"%string := Str "t1"; "user"%string := Str "u1" ]};
     1%nat := {[ "user"%string := Str "u2" ]} ]}.

(** A Base with two pending events at version 3. *)
Definition base_with_two_pending : Base value :=
  {| id := "Account:1"; version := 3;
     pending := [AccountOpened "1" "ann" 10; MoneyDeposited 5] |}.

(** pgx.NewEventStore(pool): no codec is registered. *)
Definition pg_store_plain : pgx.EventStore value unit :=
  pgx.NewEventStore [].

(** pgx.NewEventStore(pool, pgx.WithTypeRegistry(storetest.Registry())) *)
Definition pg_store_registered : pgx.EventStore value unit :=
  pgx.NewEventStore [pgx.WithTypeRegistry Registry].

(** The history of the compliance suite's first test: two appends to
    one stream of a fresh in-memory store. *)
Definition history : list (mem.call value unit) :=
  [ mem.CallAppend tt 10 "Stream:1" 0 [Opened "1"] None;
    mem.CallAppend tt 20 "Stream:1" 1 [Added 5] None ].

Definition store_after_history : heap value * mem.Store value unit :=
  mem.run (∅, mem.New (mem.WithMetadataExtractor <$> [])) history.



(** An append with a stale expected version and an event of a type
    without codec, on the pgx store. *)
Definition stale_unregistered : heap value * pgx.table * (Z * option error) :=
  pgx.Append marshal_any ∅ [] pg_store_plain tt "Stream:1" 1 [Opened "1"] None.

(** An append of one event to a fresh in-memory store. *)
Definition mem_first_append
    : heap value * mem.Store value unit * (Z * option error) :=
  mem.Append ∅ (mem.New []) tt 10 "Stream:1" 0 [Opened "1"] None.

(** An append of an event of a type without codec at the current
    version, on the pgx store with the suite's registry. *)
Definition unregistered_append : heap value * pgx.table * (Z * option error) :=
  pgx.Append marshal_any ∅ [] pg_store_registered tt "Stream:1"
    (pgx.select_current_version [] "Stream:1") ([] ++ [MoneyDeposited 5]) None.

(** The account example's aggregate, freshly initialised with [when]. *)
Definition fresh_account : Agg value (string * Z * bool) :=
  Init "" (Some when)
    {| base := {| id := ""; version := 0; pending := [] |};
       applier := None;
       dom_state := (""%string, 0, false) |}.

(** An in-memory store with the scenario's extractor, and the heap that
    holds the explicit metadata {user: u2} at location 0. *)
Definition store_with_extractor : mem.Store value unit :=
  mem.New [mem.WithMetadataExtractor (Some tenant_extractor)].

Definition explicit_heap : heap value :=
  {[ 0%nat := {[ "user"%string := Str "u2" ]} ]}.

End sample.

(* ===================================================================== *)
(** ** Sample values of the account example: events and commands *)
(* ===================================================================== *)

Module bank.
Import ges.

(** The dynamic values of the account example: its two events, its two
    commands, and strings as values of any other type. *)
Inductive value : Type :=
  | AccountOpened (AccountID Owner : string) (Initial : Z)
  | MoneyDeposited (Amount : Z)
  | OpenAccountCommand (AccountID Owner : string) (Initial : Z)
  | DepositCommand (AccountID : string) (Amount : Z)
  | Str (s : string).

#[global] Instance value_any : GoAny value := {|
  nil := Str "";
  method_EventType v :=
    match v with
    | AccountOpened _ _ _ => Some "AccountOpened"%string
    | MoneyDeposited _ => Some "MoneyDeposited"%string
    | _ => None
    end;
  format_T v :=
    match v with
    | AccountOpened _ _ _ => "main.AccountOpened"%string
    | MoneyDeposited _ => "main.MoneyDeposited"%string
    | OpenAccountCommand _ _ _ => "main.OpenAccountCommand"%string
    | DepositCommand _ _ => "main.DepositCommand"%string
    | Str _ => "string"%string
    end
|}.

Definition view (v : value) : account.event_view :=
  match v with
  | AccountOpened a o i => account.AccountOpened a o i
  | MoneyDeposited n => account.MoneyDeposited n
  | _ => account.OtherEvent
  end.

Definition command (v : value) : account.command_view :=
  match v with
  | OpenAccountCommand a o i => account.OpenAccountCommand a o i
  | DepositCommand a n => account.DepositCommand a n
  | _ => account.OtherCommand (format_T v)
  end.

Definition event_value (ev : account.event_view) : value :=
  match ev with
  | account.AccountOpened a o i => AccountOpened a o i
  | account.MoneyDeposited n => MoneyDeposited n
  | account.OtherEvent => Str ""
  end.

(** An account opened with 1000 that has one deposit of 500 pending. *)
Definition taro : account.Account value :=
  account.record view (MoneyDeposited 500)
    (account.Restore view [AccountOpened "7" "Taro" 1000] account.zero).

(** An in-memory store holding the opening event of account 7. *)
Definition store_with_taro : heap value * mem.Store value unit :=
  mem.run (∅, mem.New (mem.WithMetadataExtractor <$> []))
    [mem.CallAppend tt 10 "Account:7" 0 [AccountOpened "7" "Taro" 1000] None].

(** The snapshot decoding of the example, for states that are stored as
    an [AccountOpened]-shaped value: no state is nil, and a state decodes to
    the snapshot of the account it describes at version 1. *)
Definition is_nil (v : value) : bool := false.

Definition json_to_snapshot (v : value) : result repository.AccountSnapshot :=
  match v with
  | AccountOpened a o i =>
      Ok {| repository.ID := a; repository.Owner := o;
            repository.Balance := i; repository.Version := 1 |}
  | _ => Err (fmtError "json: cannot unmarshal" [])
  end.


End bank.

(* ===================================================================== *)
(** ** Sample values for the PostgreSQL store *)
(* ===================================================================== *)

Module pgsample.
Import ges.

(** A codec for the [Opened] events of the compliance suite that writes
    the ID and reads it back. *)
Definition opened_codec : EventCodec sample.value :=
  {| Encode v :=
       match v with
       | sample.Opened id => Ok (String.list_byte_of_string id)
       | _ => Err (fmtError "pgsample: not an Opened event" [])
       end;
     Decode b := Ok (sample.Opened (String.string_of_list_byte b)) |}.

Definition store : pgx.EventStore sample.value unit :=
  pgx.NewEventStore [pgx.WithTypeRegistry {[ "Opened"%string := opened_codec ]}].

(** A JSONB column that hands back the text it was given. *)
Definition jsonb_same (b : bytes) : bytes := b.

(** The table after one event was appended to "Stream:1". *)
Definition first_append : heap sample.value * pgx.table * (Z * option error) :=
  pgx.Append sample.marshal_any ∅ [] store tt "Stream:1" 0 [sample.Opened "1"] None.

(** A table whose rows of "Stream:1" are not in version order. *)
Definition shuffled : pgx.table :=
  [ {| pgx.stream_id := "Stream:1"; pgx.version := 2; pgx.event_type := "Opened";
       pgx.payload := String.list_byte_of_string "b"; pgx.metadata := [] |};
    {| pgx.stream_id := "Stream:1"; pgx.version := 1; pgx.event_type := "Opened";
       pgx.payload := String.list_byte_of_string "a"; pgx.metadata := [] |} ].

(** A table with a row whose event type has no codec. *)
Definition with_unknown : pgx.table :=
  [ {| pgx.stream_id := "Stream:1"; pgx.version := 1; pgx.event_type := "Closed";
       pgx.payload := []; pgx.metadata := [] |} ].

(** Marshalling of snapshot states that are strings, and the unmarshalling
    that reads the text back. *)
Definition marshal_state (v : sample.value) : result bytes :=
  match v with
  | sample.Str s => Ok (String.list_byte_of_string s)
  | _ => Err (fmtError "json: unsupported value" [])
  end.

Definition unmarshal_object (b : bytes) : result sample.value :=
  Ok (sample.Str (String.string_of_list_byte b)).

End pgsample.

(* ===================================================================== *)
(** * Properties *)
(* ===================================================================== *)

(** ** int64 arithmetic *)

Lemma wrap_in_range (z : Z) : Int64.in_range z -> Int64.wrap z = z.
Proof.
  unfold Int64.in_range, Int64.wrap, Int64.min_int64, Int64.max_int64.
  intros Hz. rewrite Z.mod_small; lia.
Qed.

Lemma wrap_is_in_range (z : Z) : Int64.in_range (Int64.wrap z).
Proof.
  unfold Int64.in_range, Int64.wrap, Int64.min_int64, Int64.max_int64.
  pose proof (Z.mod_pos_bound (z + 2 ^ 63) (2 ^ 64) ltac:(lia)). lia.
Qed.

(** ** Metadata.Merge *)

Section MergeFacts.
Import ges.
Context {any : Type} `{GoAny any}.
Implicit Types (h : heap any) (r : gmap string any) (out : loc).

Lemma range_assign_closed out h r (entries : list (string * any)) :
  h !! out = Some r ->
  range_assign out h entries =
    <[out := foldl (fun acc kv => <[kv.1 := kv.2]> acc) r entries]> h.
Proof.
  unfold range_assign, map_assign in *.
  revert h r. induction entries as [|[k v] entries IH]; intros h r Hout; simpl.
  - by rewrite insert_id.
  - rewrite (IH _ (<[k := v]> r)).
    + apply map_eq. intros i. destruct (decide (i = out)) as [->|Hne].
      * by rewrite !lookup_insert_eq.
      * rewrite !lookup_insert_ne by done. by rewrite lookup_alter_ne.
    + simpl. by rewrite lookup_alter_eq, Hout.
Qed.

Lemma foldl_insert_union (entries : list (string * any)) r :
  NoDup entries.*1 ->
  foldl (fun acc kv => <[kv.1 := kv.2]> acc) r entries = list_to_map entries ∪ r.
Proof.
  revert r. induction entries as [|[k v] entries IH]; intros r Hnd; simpl.
  - by rewrite (left_id_L ∅ (∪)).
  - apply NoDup_cons in Hnd as [Hk Hnd]. rewrite IH by done.
    rewrite <- insert_union_l, <- insert_union_r; [done|].
    by apply not_elem_of_list_to_map_1.
Qed.

(** The loop does not depend on the order in which the map hands out
    its entries. *)
Lemma range_assign_any_order out h r (src : gmap string any)
    (entries : list (string * any)) :
  h !! out = Some r ->
  entries ≡ₚ map_to_list src ->
  range_assign out h entries = <[out := src ∪ r]> h.
Proof.
  intros Hout Hperm. rewrite (range_assign_closed out h r) by done.
  rewrite foldl_insert_union.
  - rewrite (list_to_map_proper entries (map_to_list src)); [|  | done].
    + by rewrite list_to_map_to_list.
    + rewrite Hperm. apply NoDup_fst_map_to_list.
  - rewrite Hperm. apply NoDup_fst_map_to_list.
Qed.

Lemma range_copy_closed out h r (src : Metadata) :
  h !! out = Some r ->
  range_copy out h src = <[out := deref h src ∪ r]> h.
Proof. intros Hout. unfold range_copy. by apply range_assign_any_order. Qed.

Lemma deref_insert_fresh out h r (src : Metadata) :
  h !! out = None ->
  deref (<[out := r]> h) src = if decide (src = Some out) then r else deref h src.
Proof.
  intros Hout. case_decide as Hsrc.
  - subst src. simpl. by rewrite lookup_insert_eq.
  - destruct src as [l|]; simpl; [|done].
    rewrite lookup_insert_ne; [done|congruence].
Qed.

Lemma deref_dangling out h : h !! out = None -> deref h (Some out) = ∅.
Proof. intros Hout. simpl. by rewrite Hout. Qed.

Lemma fresh_loc_unused h : h !! fresh (dom h) = None.
Proof. apply not_elem_of_dom. apply is_fresh. Qed.

(** The heap and the reference [m.Merge(n)] returns, in closed form. *)
Lemma Merge_closed h (m n : Metadata) :
  Merge h m [n] =
    (<[fresh (dom h) := deref h n ∪ deref h m]> h, Some (fresh (dom h))).
Proof.
  unfold Merge. set (out := fresh (dom h)).
  assert (Hout : h !! out = None) by apply fresh_loc_unused.
  f_equal. simpl.
  assert (H1 : match m with
               | Some _ => range_copy out (<[out := ∅]> h) m
               | None => <[out := ∅]> h
               end = <[out := deref h m]> h).
  { destruct m as [l|]; [|done].
    rewrite (range_copy_closed out _ ∅) by apply lookup_insert_eq.
    rewrite (right_id_L ∅ (∪)), insert_insert_eq.
    rewrite deref_insert_fresh by done.
    destruct (decide _) as [[= ->]|]; [|done].
    by rewrite deref_dangling. }
  rewrite H1.
  rewrite (range_copy_closed out _ (deref h m)) by apply lookup_insert_eq.
  rewrite insert_insert_eq, deref_insert_fresh by done.
  destruct (decide _) as [->|]; [|done].
  rewrite deref_dangling by done.
  by rewrite (left_id_L ∅ (∪)), (idemp_L (∪)).
Qed.

Lemma union_lookup_right_biased (a b : gmap string any) (k : string) :
  (b ∪ a) !! k = match b !! k with Some v => Some v | None => a !! k end.
Proof.
  rewrite lookup_union. destruct (b !! k), (a !! k); done.
Qed.

End MergeFacts.

(** ** The in-memory store *)

Section MemFacts.
Import ges mem.
Context {any : Type} `{GoAny any} {Ctx : Type}.
Implicit Types (s : Store any Ctx) (st : heap any * Store any Ctx).
Implicit Types (seq : list (storedEvent any)) (c : call any Ctx).
Implicit Types (h : heap any) (md : Metadata) (events : list any).

Lemma foldl_append_one md now seq cv events :
  foldl (append_one md now) (seq, cv) events =
    (seq ++ stamped md now cv events, cv + Z.of_nat (length events)).
Proof.
  revert seq cv. induction events as [|e events IH]; intros seq cv; simpl.
  - rewrite app_nil_r. f_equal. lia.
  - unfold append_one at 2. simpl. rewrite IH, <- app_assoc. simpl.
    f_equal. lia.
Qed.

Lemma length_stamped md now cv events :
  length (stamped md now cv events) = length events.
Proof. revert cv. induction events; intros cv; simpl; auto. Qed.

Lemma payload_stamped md now cv events :
  payload <$> stamped md now cv events = events.
Proof. revert cv. induction events; intros cv; simpl; f_equal; auto. Qed.

Lemma lookup_stamped md now cv events (i : nat) (e : storedEvent any) :
  stamped md now cv events !! i = Some e ->
  version e = cv + Z.of_nat i + 1 /\ metadata e = md /\ at_ e = now /\
  events !! i = Some (payload e) /\ typ e = EventType (payload e).
Proof.
  revert cv i. induction events as [|x events IH]; intros cv i Hi; [done|].
  destruct i as [|i]; simpl in Hi.
  - injection Hi as <-. simpl. repeat split; lia.
  - apply IH in Hi as (Hv & Hrest). split; [lia|done].
Qed.

(** Append on a stream whose current version is not the expected one. *)
Lemma Append_mismatch h s ctx now sid ev events md :
  current_version s sid <> ev ->
  Append h s ctx now sid ev events md =
    ((merge_extracted (extractor s) ctx h md).1, s,
     (0, Some (VersionConflictError sid ev (current_version s sid)))).
Proof.
  intros Hne. unfold Append, current_version in *.
  destruct (merge_extracted _ _ _ _) as [h1 md1]. simpl.
  destruct (Z.eqb_spec (Z.of_nat (length (stream_of s sid))) ev); [done|].
  reflexivity.
Qed.

(** Append of an empty batch at the expected version. *)
Lemma Append_empty h s ctx now sid md :
  Append h s ctx now sid (current_version s sid) [] md =
    ((merge_extracted (extractor s) ctx h md).1, s, (current_version s sid, None)).
Proof.
  unfold Append, current_version.
  destruct (merge_extracted _ _ _ _) as [h1 md1]. simpl.
  by rewrite Z.eqb_refl.
Qed.

(** Append of a batch with at least one event at the expected version. *)
Lemma Append_match h s ctx now sid events md :
  events <> [] ->
  Append h s ctx now sid (current_version s sid) events md =
    ((merge_extracted (extractor s) ctx h md).1,
     {| streams := <[sid := stream_of s sid ++
                      stamped (merge_extracted (extractor s) ctx h md).2 now
                        (current_version s sid) events]> (streams s);
        snapshots := snapshots s;
        extractor := extractor s |},
     (current_version s sid + Z.of_nat (length events), None)).
Proof.
  intros Hne. unfold Append, current_version.
  destruct (merge_extracted _ _ _ _) as [h1 md1]. simpl.
  rewrite Z.eqb_refl. simpl.
  destruct events as [|e events]; [done|].
  change (length (e :: events) =? 0)%nat with false. simpl negb.
  by rewrite foldl_append_one.
Qed.

Lemma stream_of_insert s sid sid' seq :
  stream_of {| streams := <[sid := seq]> (streams s);
               snapshots := snapshots s;
               extractor := extractor s |} sid' =
    if decide (sid = sid') then seq else stream_of s sid'.
Proof.
  unfold stream_of. simpl. rewrite lookup_insert. by case_decide.
Qed.

(** *** The version invariant *)

Lemma gapless_nil : gapless ([] : list (storedEvent any)).
Proof. intros i e Hi. done. Qed.

Lemma gapless_app_stamped seq md now events :
  gapless seq ->
  gapless (seq ++ stamped md now (Z.of_nat (length seq)) events).
Proof.
  intros Hseq i e Hi. apply lookup_app_Some in Hi as [Hi|[Hge Hi]].
  - by apply Hseq.
  - apply lookup_stamped in Hi as (Hv & _). lia.
Qed.

Lemma gapless_last seq : gapless seq -> last_version seq = Z.of_nat (length seq).
Proof.
  intros Hseq. unfold last_version. rewrite last_lookup.
  destruct seq as [|e0 seq]; [done|].
  destruct ((e0 :: seq) !! Nat.pred (length (e0 :: seq))) as [e|] eqn:He.
  - apply Hseq in He. simpl in *. lia.
  - apply lookup_ge_None in He. simpl in He. lia.
Qed.

Lemma gapless_increasing seq (i j : nat) (ei ej : storedEvent any) :
  gapless seq -> seq !! i = Some ei -> seq !! j = Some ej ->
  (i < j)%nat -> version ei < version ej.
Proof. intros Hseq Hi Hj Hlt. apply Hseq in Hi, Hj. lia. Qed.

Lemma versions_ok_New (exs : list (option (MetadataExtractor any Ctx))) :
  versions_ok (New (WithMetadataExtractor <$> exs)).
Proof.
  unfold New.
  assert (Hgen : forall s0 : Store any Ctx, versions_ok s0 ->
            versions_ok (foldl (fun s1 opt => opt s1) s0 (WithMetadataExtractor <$> exs))).
  { induction exs as [|ex exs IH]; intros s0 Hs0; simpl; [done|].
    apply IH. intros sid. apply (Hs0 sid). }
  apply Hgen. intros sid. unfold stream_of. simpl. rewrite lookup_empty.
  apply gapless_nil.
Qed.

Lemma versions_ok_Append h s ctx now sid ev events md :
  versions_ok s -> versions_ok (Append h s ctx now sid ev events md).1.2.
Proof.
  intros Hs. destruct (decide (current_version s sid = ev)) as [<-|Hne].
  - destruct events as [|e events].
    + by rewrite Append_empty.
    + rewrite Append_match by done. cbn [fst snd]. intros sid'.
      rewrite stream_of_insert. case_decide; [|apply Hs].
      apply (gapless_app_stamped _ _ _ (e :: events)), Hs.
  - by rewrite Append_mismatch.
Qed.

Lemma versions_ok_exec st c :
  versions_ok st.2 -> versions_ok (exec st c).2.
Proof.
  intros Hst. destruct c; simpl; try done.
  by apply versions_ok_Append.
Qed.

Lemma versions_ok_run (cs : list (call any Ctx)) st :
  versions_ok st.2 -> versions_ok (run st cs).2.
Proof.
  revert st. induction cs as [|c cs IH]; intros st Hst; simpl; [done|].
  apply IH. by apply versions_ok_exec.
Qed.

Lemma versions_ok_reachable st :
  reachable st -> versions_ok st.2.
Proof.
  intros (h0 & exs & cs & ->). apply versions_ok_run. simpl.
  apply versions_ok_New.
Qed.

End MemFacts.

Section MemLoadFacts.
Import ges mem.
Context {any : Type} `{GoAny any} {Ctx : Type}.
Implicit Types (s : Store any Ctx) (st : heap any * Store any Ctx).
Implicit Types (seq : list (storedEvent any)) (c : call any Ctx).

(** In a run of consecutive versions that starts above [base], the
    events above [fromVersion] are a suffix. *)
Lemma filter_consecutive seq (base fromVersion : Z) :
  (forall (i : nat) e, seq !! i = Some e -> version e = base + Z.of_nat i + 1) ->
  filter (fun e => fromVersion < version e) seq =
    drop (Z.to_nat (fromVersion - base)) seq.
Proof.
  revert base. induction seq as [|e seq IH]; intros base Hseq.
  - by rewrite drop_nil.
  - assert (He : version e = base + 1) by (rewrite (Hseq 0%nat e); [lia|done]).
    assert (Hrest : forall (i : nat) e', seq !! i = Some e' ->
                      version e' = (base + 1) + Z.of_nat i + 1).
    { intros i e' Hi. rewrite (Hseq (S i) e') by done. lia. }
    specialize (IH (base + 1) Hrest).
    destruct (decide (fromVersion < version e)) as [Hlt|Hge].
    + rewrite filter_cons_True by done. rewrite IH.
      replace (Z.to_nat (fromVersion - (base + 1))) with 0%nat by lia.
      replace (Z.to_nat (fromVersion - base)) with 0%nat by lia.
      done.
    + rewrite filter_cons_False by done. rewrite IH.
      replace (Z.to_nat (fromVersion - base))
        with (S (Z.to_nat (fromVersion - (base + 1)))) by lia.
      done.
Qed.

Lemma gapless_filter seq (fromVersion : Z) :
  gapless seq ->
  filter (fun e => fromVersion < version e) seq = drop (Z.to_nat fromVersion) seq.
Proof.
  intros Hseq. rewrite (filter_consecutive seq 0 fromVersion).
  - by rewrite Z.sub_0_r.
  - intros i e Hi. rewrite (Hseq i e Hi). lia.
Qed.

(** The index Load starts reading at. *)
Lemma Load_start seq (fromVersion : Z) :
  let len := Z.of_nat (length seq) in
  let start := if fromVersion <? 0 then 0 else fromVersion in
  let start := if start >? len then len else start in
  drop (Z.to_nat start) seq = drop (Z.to_nat fromVersion) seq.
Proof.
  simpl. destruct (Z.ltb_spec fromVersion 0) as [Hneg|Hpos].
  - destruct (Z.gtb_spec 0 (Z.of_nat (length seq))); [lia|].
    by replace (Z.to_nat fromVersion) with 0%nat by lia.
  - destruct (Z.gtb_spec fromVersion (Z.of_nat (length seq))); [|done].
    rewrite !drop_ge; [done|lia|lia].
Qed.

(** Load in closed form, on a stream with gapless versions. *)
Lemma Load_closed s sid (fromVersion : Z) :
  gapless (stream_of s sid) ->
  Load s sid fromVersion =
    (payload <$> filter (fun e => fromVersion < version e) (stream_of s sid),
     last_version (stream_of s sid), None).
Proof.
  intros Hseq. unfold Load, last_version.
  destruct (stream_of s sid) as [|e0 seq] eqn:Hs; [done|].
  change (length (e0 :: seq) =? 0)%nat with false. cbv iota.
  rewrite Load_start, gapless_filter by done.
  rewrite last_lookup.
  replace (length (e0 :: seq) - 1)%nat with (Nat.pred (length (e0 :: seq))) by lia.
  done.
Qed.

Lemma no_save_no_snapshot (cs : list (call any Ctx)) st sid :
  snapshots st.2 !! sid = None ->
  forallb (fun c => negb (is_save_for sid c)) cs = true ->
  snapshots (run st cs).2 !! sid = None.
Proof.
  revert st. induction cs as [|c cs IH]; intros st Hst Hcs; simpl in *; [done|].
  apply andb_prop in Hcs as [Hc Hcs]. apply IH; [|done].
  destruct c; simpl in *; try done.
  - unfold Append. destruct (merge_extracted _ _ _ _) as [h1 md1].
    destruct (negb _); [done|]. destruct (_ =? _)%nat; [done|].
    by destruct (foldl _ _ _).
  - rewrite lookup_insert_ne; [done|].
    intros ->. by rewrite bool_decide_eq_true_2 in Hc.
Qed.

Lemma snapshots_New (exs : list (option (MetadataExtractor any Ctx))) :
  snapshots (New (WithMetadataExtractor <$> exs)) = ∅.
Proof.
  unfold New.
  assert (Hgen : forall s0 : Store any Ctx,
            snapshots (foldl (fun s1 opt => opt s1) s0 (WithMetadataExtractor <$> exs))
            = snapshots s0).
  { induction exs as [|ex exs IH]; intros s0; simpl; [done|]. by rewrite IH. }
  by rewrite Hgen.
Qed.

End MemLoadFacts.

(** ** The PostgreSQL store *)

Section PgxFacts.
Import ges pgx.
Context {any : Type} `{GoAny any} {Ctx : Type}.
Variable json_Marshal : option (gmap string any) -> result bytes.
Implicit Types (db tx : table) (s : EventStore any Ctx) (h : heap any).
Implicit Types (md : Metadata) (events : list any).

Lemma foldl_max_spec (vs : list Z) (v : Z) :
  (forall x, x ∈ v :: vs -> x <= foldl Z.max v vs) /\ foldl Z.max v vs ∈ v :: vs.
Proof.
  revert v. induction vs as [|w vs IH]; intros v; simpl.
  - split; [|left]. intros x Hx. apply list_elem_of_singleton in Hx. lia.
  - destruct (IH (Z.max v w)) as [Hge Hin]. split.
    + intros x Hx. assert (Hm : Z.max v w <= foldl Z.max (Z.max v w) vs)
        by (apply Hge; left).
      apply elem_of_cons in Hx as [->|Hx]; [lia|].
      apply elem_of_cons in Hx as [->|Hx]; [lia|].
      apply Hge. by right.
    + apply elem_of_cons in Hin as [Heq|Hin].
      * rewrite Heq. destruct (Z.max_spec v w) as [[_ ->]|[_ ->]];
          [right; left|left].
      * right. by right.
Qed.

Lemma stream_versions_elem db sid (v : Z) :
  v ∈ version <$> filter (fun r => stream_id r = sid) db <->
  exists r, r ∈ db /\ stream_id r = sid /\ version r = v.
Proof.
  rewrite list_elem_of_fmap. split.
  - intros (r & -> & Hr). apply list_elem_of_filter in Hr as [Hsid Hr]. eauto.
  - intros (r & Hr & Hsid & <-). exists r. split; [done|].
    by apply list_elem_of_filter.
Qed.


Lemma select_current_version_upper db sid r :
  r ∈ db -> stream_id r = sid -> version r <= select_current_version db sid.
Proof.
  intros Hr Hsid.
  assert (Hin : version r ∈ version <$> filter (fun r => stream_id r = sid) db)
    by (apply stream_versions_elem; eauto).
  unfold select_current_version.
  destruct (version <$> filter (fun r => stream_id r = sid) db) as [|v vs].
  - by apply elem_of_nil in Hin.
  - by apply foldl_max_spec.
Qed.




(** A prefix of the batch that is written hands the transaction over to
    the rest of the batch. *)
Lemma insert_events_app s h md sid ev pre rest : forall tx (cv : Z) tx' (cv' : Z),
  insert_events json_Marshal s h md sid ev tx cv pre = Ok (tx', cv') ->
  insert_events json_Marshal s h md sid ev tx cv (pre ++ rest) =
    insert_events json_Marshal s h md sid ev tx' cv' rest.
Proof.
  induction pre as [|e pre IH]; intros tx cv tx' cv' Hpre; simpl in *.
  - by injection Hpre as <- <-.
  - destruct (typeRegistry s !! EventType e) as [codec|]; [|done].
    destruct (Encode codec e) as [payload|]; [|done].
    destruct (json_Marshal (md_value h md)) as [meta|]; [|done].
    destruct (exec_insert _ _) as [tx1|err].
    + by apply IH.
    + by destruct (isUniqueViolation err).
Qed.


Lemma pgx_Append_mismatch h db s ctx sid ev events md :
  select_current_version db sid <> ev ->
  Append json_Marshal h db s ctx sid ev events md =
    ((merge_extracted (extractor s) ctx h md).1, db,
     (0, Some (VersionConflictError sid ev (select_current_version db sid)))).
Proof.
  intros Hne. unfold Append.
  destruct (merge_extracted _ _ _ _) as [h1 md1]. simpl.
  by destruct (Z.eqb_spec (select_current_version db sid) ev).
Qed.

Lemma pgx_Append_empty h db s ctx sid md :
  Append json_Marshal h db s ctx sid (select_current_version db sid) [] md =
    ((merge_extracted (extractor s) ctx h md).1, db,
     (select_current_version db sid, None)).
Proof.
  unfold Append. destruct (merge_extracted _ _ _ _) as [h1 md1]. simpl.
  by rewrite Z.eqb_refl.
Qed.

(** Append at the expected version runs the loop on the table. *)
Lemma pgx_Append_match h db s ctx sid events md :
  events <> [] ->
  Append json_Marshal h db s ctx sid (select_current_version db sid) events md =
    let hm := merge_extracted (extractor s) ctx h md in
    match insert_events json_Marshal s hm.1 hm.2 sid (select_current_version db sid)
            db (select_current_version db sid) events with
    | Err err => (hm.1, db, (0, Some err))
    | Ok (tx, cv) => (hm.1, tx, (cv, None))
    end.
Proof.
  intros Hne. unfold Append.
  destruct (merge_extracted _ _ _ _) as [h1 md1]. cbn [fst snd].
  rewrite Z.eqb_refl. cbn [negb].
  destruct events as [|e events]; [done|]. reflexivity.
Qed.


End PgxFacts.

(** ** Base and the example aggregate *)

Section AggregateFacts.
Import ges.
Context {any : Type} `{GoAny any} {D : Type}.
Implicit Types (a : Agg any D) (e : any) (es : list any).

Lemma applier_Raise e a : applier (Raise e a) = applier a.
Proof.
  unfold Raise, Apply, call_applier. simpl.
  destruct (applier a) as [f|] eqn:Hf; [|by rewrite Hf].
  by destruct (f e (base a, dom_state a)).
Qed.

Lemma pending_Raise e a :
  applier_keeps_pending a ->
  pending (base (Raise e a)) = pending (base a) ++ [e].
Proof.
  intros Hkeep. unfold Raise, Apply, call_applier. simpl.
  destruct (applier a) as [f|] eqn:Hf; [|done].
  specialize (Hkeep f e (base a, dom_state a) Hf).
  destruct (f e (base a, dom_state a)) as [b' d']. simpl in *. by rewrite Hkeep.
Qed.

Lemma keeps_pending_Raise e a :
  applier_keeps_pending a -> applier_keeps_pending (Raise e a).
Proof. unfold applier_keeps_pending. by rewrite applier_Raise. Qed.

Lemma pending_Raise_all es a :
  applier_keeps_pending a ->
  pending (base (Raise_all es a)) = pending (base a) ++ es.
Proof.
  revert a. unfold Raise_all.
  induction es as [|e es IH]; intros a Hkeep; simpl.
  - by rewrite app_nil_r.
  - rewrite IH by by apply keeps_pending_Raise.
    rewrite pending_Raise by done. by rewrite <- app_assoc.
Qed.

End AggregateFacts.

Section AccountFacts.
Import account.
Context {any : Type} (view : any -> event_view).
Implicit Types (a : Account any) (e : any) (es : list any).

Lemma pend_record e a : pend (record view e a) = pend a ++ [e].
Proof. unfold record, Apply. simpl. by destruct (view e). Qed.

Lemma pend_record_all es a : pend (record_all view es a) = pend a ++ es.
Proof.
  revert a. unfold record_all. induction es as [|e es IH]; intros a; simpl.
  - by rewrite app_nil_r.
  - by rewrite IH, pend_record, <- app_assoc.
Qed.

End AccountFacts.

(* ===================================================================== *)
(** * The claims *)
(* ===================================================================== *)

Section MemClaims.
Import ges mem.
Context {any : Type} `{GoAny any} {Ctx : Type}.
Implicit Types (s : Store any Ctx) (st : heap any * Store any Ctx).
Implicit Types (h : heap any) (md : Metadata) (events : list any).

(** C2. In the in-memory store, in every state reachable from a fresh
    store by Append, Load, SaveSnapshot and LoadSnapshot calls, the stored
    events of every stream carry the versions 1, 2, ..., n in storage order
    (strictly increasing, without gaps), and the current version that Append
    compares expectedVersion with is the version of the stream's last stored
    event, or 0 when the stream is empty. *)
Theorem C2_stream_versions_gapless st (streamID : string) :
  reachable st ->
  gapless (stream_of st.2 streamID)
  /\ (forall (i j : nat) (ei ej : storedEvent any),
        stream_of st.2 streamID !! i = Some ei ->
        stream_of st.2 streamID !! j = Some ej ->
        (i < j)%nat -> version ei < version ej)
  /\ current_version st.2 streamID = last_version (stream_of st.2 streamID)
  /\ (stream_of st.2 streamID = [] -> current_version st.2 streamID = 0)
  /\ (forall h ctx now (expectedVersion : Z) events md,
        (Append h st.2 ctx now streamID expectedVersion events md).2.2 = None
        <-> expectedVersion = last_version (stream_of st.2 streamID)).
Proof.
  intros Hreach. apply versions_ok_reachable in Hreach.
  specialize (Hreach streamID).
  assert (Hlast := gapless_last _ Hreach).
  split; [done|]. split; [|split; [|split]].
  - intros i j ei ej Hi Hj Hlt.
    by apply (gapless_increasing (stream_of st.2 streamID) i j).
  - by rewrite Hlast.
  - intros Hnil. unfold current_version. by rewrite Hnil.
  - intros h ctx now ev events md. rewrite Hlast.
    fold (current_version st.2 streamID).
    destruct (decide (current_version st.2 streamID = ev)) as [<-|Hne].
    + split; [done|intros _].
      destruct events as [|e events].
      * by rewrite Append_empty.
      * by rewrite Append_match.
    + rewrite Append_mismatch by done. simpl. split; [done|congruence].
Qed.

(** C3. For every stream of a reachable in-memory store, a successful
    Append at the stream's current version followed by Load(streamID, 0)
    returns the payloads of the previously stored events and then the
    appended batch, with lastVersion the new current version (the version
    Append returned); and Load(streamID, fromVersion) returns the payloads of
    exactly the stored events whose version is above fromVersion, in storage
    order, their versions being consecutive and ascending. *)
Theorem C3_append_then_load st (streamID : string) :
  reachable st ->
  (forall h ctx now events md,
     let r := Append h st.2 ctx now streamID
                (current_version st.2 streamID) events md in
     r.2 = (current_version st.2 streamID + Z.of_nat (length events), None)
     /\ current_version r.1.2 streamID =
          current_version st.2 streamID + Z.of_nat (length events)
     /\ Load r.1.2 streamID 0 =
          ((payload <$> stream_of st.2 streamID) ++ events,
           current_version st.2 streamID + Z.of_nat (length events),
           None))
  /\ (forall fromVersion : Z,
        let selected := filter (fun e => fromVersion < version e)
                          (stream_of st.2 streamID) in
        Load st.2 streamID fromVersion =
          (payload <$> selected, last_version (stream_of st.2 streamID), None)
        /\ (forall (i : nat) (e : storedEvent any), selected !! i = Some e ->
              version e = Z.max fromVersion 0 + Z.of_nat i + 1)).
Proof.
  intros Hreach. apply versions_ok_reachable in Hreach. split.
  - intros h ctx now events md r.
    assert (Hr : versions_ok r.1.2) by by apply versions_ok_Append.
    assert (Hseq : stream_of r.1.2 streamID =
                     stream_of st.2 streamID ++
                     stamped (merge_extracted (extractor st.2) ctx h md).2 now
                       (current_version st.2 streamID) events
                   /\ r.2 = (current_version st.2 streamID +
                             Z.of_nat (length events), None)).
    { subst r. destruct events as [|e events].
      - rewrite Append_empty. simpl. rewrite app_nil_r. split; [done|].
        f_equal. lia.
      - rewrite Append_match by done. cbn [fst snd].
        rewrite stream_of_insert. by rewrite decide_True. }
    destruct Hseq as [Hseq Hret].
    assert (Hcv : current_version r.1.2 streamID =
                    current_version st.2 streamID + Z.of_nat (length events)).
    { unfold current_version. rewrite Hseq, length_app, length_stamped. lia. }
    split; [done|]. split; [done|].
    rewrite Load_closed by apply Hr.
    rewrite gapless_last by apply Hr. fold (current_version r.1.2 streamID).
    rewrite Hcv. rewrite gapless_filter by apply Hr.
    change (Z.to_nat 0) with 0%nat. rewrite drop_0.
    by rewrite Hseq, fmap_app, payload_stamped.
  - intros fromVersion selected. split; [by apply Load_closed|].
    intros i e Hi. subst selected.
    rewrite gapless_filter in Hi by apply Hreach.
    rewrite lookup_drop in Hi.
    assert (Hlt := lookup_lt_Some _ _ _ Hi).
    apply Hreach in Hi. lia.
Qed.

(** C9. In the in-memory store, for every stream of a reachable store that
    holds at least one stored event and every fromVersion at or above the
    stream's current version, Load returns no event, no error, and as
    lastVersion the stream's current version, which is the version of the
    last stored event and is not 0. *)
Theorem C9_load_past_end st (streamID : string) (fromVersion : Z) :
  reachable st ->
  stream_of st.2 streamID <> [] ->
  current_version st.2 streamID <= fromVersion ->
  Load st.2 streamID fromVersion = ([], current_version st.2 streamID, None)
  /\ current_version st.2 streamID = last_version (stream_of st.2 streamID)
  /\ current_version st.2 streamID <> 0.
Proof.
  intros Hreach Hne Hfrom. apply versions_ok_reachable in Hreach.
  specialize (Hreach streamID).
  assert (Hlast := gapless_last _ Hreach).
  fold (current_version st.2 streamID) in Hlast.
  split; [|split; [done|]].
  - rewrite Load_closed, gapless_filter by done.
    rewrite drop_ge by (unfold current_version in Hfrom; lia).
    by rewrite Hlast.
  - unfold current_version. destruct (stream_of st.2 streamID); [done|].
    simpl. lia.
Qed.

(** C8. In the in-memory store, LoadSnapshot for a stream of a store in
    whose history there is no SaveSnapshot for that stream returns a
    Snapshot with Found=false and no error; and after
    SaveSnapshot(streamID, v, state) on any store, whatever snapshot the
    stream had before, LoadSnapshot(streamID) returns Found=true with that
    state and version v and no error. *)
Theorem C8_snapshot_round_trip :
  (forall (h0 : heap any) (exs : list (option (MetadataExtractor any Ctx)))
          (cs : list (call any Ctx)) (streamID : string),
     forallb (fun c => negb (is_save_for streamID c)) cs = true ->
     let r := LoadSnapshot (run (h0, New (WithMetadataExtractor <$> exs)) cs).2
                streamID in
     Found r.1 = false /\ r.2 = None /\ r.1 = Snapshot_not_found)
  /\ (forall s now (streamID : string) (v : Z) (state : any),
        (SaveSnapshot s now streamID v state).2 = None
        /\ LoadSnapshot (SaveSnapshot s now streamID v state).1 streamID =
             ({| State := state; Version := v; Found := true; At_ := now |}, None)).
Proof.
  split.
  - intros h0 exs cs streamID Hcs r. subst r. unfold LoadSnapshot.
    rewrite no_save_no_snapshot; [done| |done].
    simpl. by rewrite snapshots_New.
  - intros s now streamID v state. split; [done|].
    unfold LoadSnapshot, SaveSnapshot. simpl. by rewrite lookup_insert_eq.
Qed.

End MemClaims.

Lemma C2_witness :
  mem.reachable sample.store_after_history
  /\ mem.current_version sample.store_after_history.2 "Stream:1" =
       mem.last_version (mem.stream_of sample.store_after_history.2 "Stream:1").
Proof.
  assert (Hreach : mem.reachable sample.store_after_history).
  { exists ∅, [], sample.history. reflexivity. }
  split; [exact Hreach|].
  exact (proj1 (proj2 (proj2
    (C2_stream_versions_gapless sample.store_after_history "Stream:1" Hreach)))).
Defined.

Lemma C3_witness :
  mem.reachable sample.store_after_history
  /\ mem.Load sample.store_after_history.2 "Stream:1" 1 =
       (mem.payload <$>
          filter (fun e => 1 < mem.version e)
            (mem.stream_of sample.store_after_history.2 "Stream:1"),
        mem.last_version (mem.stream_of sample.store_after_history.2 "Stream:1"),
        None).
Proof.
  assert (Hreach : mem.reachable sample.store_after_history).
  { exists ∅, [], sample.history. reflexivity. }
  split; [exact Hreach|].
  exact (proj1 (proj2
    (C3_append_then_load sample.store_after_history "Stream:1" Hreach) 1)).
Defined.

Lemma C9_witness :
  mem.reachable sample.store_after_history
  /\ mem.stream_of sample.store_after_history.2 "Stream:1" <> []
  /\ mem.current_version sample.store_after_history.2 "Stream:1" <= 7
  /\ mem.Load sample.store_after_history.2 "Stream:1" 7 =
       ([], mem.current_version sample.store_after_history.2 "Stream:1", None).
Proof.
  assert (Hreach : mem.reachable sample.store_after_history).
  { exists ∅, [], sample.history. reflexivity. }
  assert (Hne : mem.stream_of sample.store_after_history.2 "Stream:1" <> [])
    by (vm_compute; discriminate).
  assert (Hle : mem.current_version sample.store_after_history.2 "Stream:1" <= 7)
    by (vm_compute; discriminate).
  split; [exact Hreach|]. split; [exact Hne|]. split; [exact Hle|].
  exact (proj1
    (C9_load_past_end sample.store_after_history "Stream:1" 7 Hreach Hne Hle)).
Defined.

Lemma C8_witness :
  forallb (fun c => negb (mem.is_save_for "Stream:1" c)) sample.history = true
  /\ ges.Found (mem.LoadSnapshot sample.store_after_history.2 "Stream:1").1 = false.
Proof.
  assert (Hcs : forallb (fun c => negb (mem.is_save_for "Stream:1" c))
                  sample.history = true) by reflexivity.
  split; [exact Hcs|].
  exact (proj1 (proj1 (C8_snapshot_round_trip (any := sample.value) (Ctx := unit))
                 ∅ [] sample.history "Stream:1" Hcs)).
Defined.

Section AggregateClaims.
Import ges.
Context {any : Type} `{GoAny any}.

(** C4. For every state of a Base, Flush returns exactly the pending
    events, which are the events raised since the buffer was last empty in
    the order they were raised, leaves the pending buffer empty, returns as
    expectedVersion the version at the time of the call minus the number of
    returned events (an int64 subtraction, the exact difference whenever that
    is an int64), and does not change the version.  The Flush of the example
    Account that keeps its own bookkeeping does the same. *)
Theorem C4_flush_returns_pending :
  (forall b : Base any,
     let r := Flush b in
     r.1.1 = pending b
     /\ pending r.2 = []
     /\ r.1.2 = Int64.sub (version b) (Z.of_nat (length r.1.1))
     /\ (Int64.in_range (version b - Z.of_nat (length r.1.1)) ->
         r.1.2 = version b - Z.of_nat (length r.1.1))
     /\ version r.2 = version b
     /\ id r.2 = id b)
  /\ (forall (D : Type) (a : Agg any D) (es : list any),
        applier_keeps_pending a ->
        (Flush (base (Raise_all es a))).1.1 = pending (base a) ++ es)
  /\ (forall (a : account.Account any),
        let r := account.Flush a in
        r.1.1 = account.pend a
        /\ account.pend r.2 = []
        /\ r.1.2 = Int64.sub (account.version a) (Z.of_nat (length r.1.1))
        /\ (Int64.in_range (account.version a - Z.of_nat (length r.1.1)) ->
            r.1.2 = account.version a - Z.of_nat (length r.1.1))
        /\ account.version r.2 = account.version a)
  /\ (forall (view : any -> account.event_view) (a : account.Account any)
             (es : list any),
        (account.Flush (account.record_all view es a)).1.1 = account.pend a ++ es).
Proof.
  split; [|split; [|split]].
  - intros b r. subst r. unfold Flush. simpl.
    repeat split. intros Hrange. by apply wrap_in_range.
  - intros D a es Hkeep. unfold Flush. simpl. by apply pending_Raise_all.
  - intros a r. subst r. unfold account.Flush. simpl.
    repeat split. intros Hrange. by apply wrap_in_range.
  - intros view a es. unfold account.Flush. simpl. apply pend_record_all.
Qed.

(** C7. For all Metadata values m and n, m.Merge(n) is right-biased: the
    map it returns has at every key k the value of n when n has the key and
    the value of m otherwise.  The returned map is a new map object and every
    map object that existed before the call, the two inputs among them, is
    unchanged.  In particular extracted {tenant: t1, user: u1} merged with
    explicit {user: u2} yields {tenant: t1, user: u2}, and this is the merge
    Append tags the stored events with when an extractor is configured: the
    explicit keys win. *)
Theorem C7_merge_right_biased :
  (forall (h : heap any) (m n : Metadata),
     let r := Merge h m [n] in
     (forall k : string,
        deref r.1 r.2 !! k =
          match deref h n !! k with
          | Some v => Some v
          | None => deref h m !! k
          end)
     /\ (forall (l : loc) (o : gmap string any), h !! l = Some o -> r.1 !! l = Some o)
     /\ (exists out : loc, r.2 = Some out /\ h !! out = None))
  /\ (forall (h : heap any) (m n : Metadata) (t1 u1 u2 : any),
        deref h m = {[ "tenant"%string := t1; "user"%string := u1 ]} ->
        deref h n = {[ "user"%string := u2 ]} ->
        deref (Merge h m [n]).1 (Merge h m [n]).2 =
          {[ "tenant"%string := t1; "user"%string := u2 ]})
  /\ (forall (Ctx : Type) (h : heap any) (s : mem.Store any Ctx) (ctx : Ctx)
             (now : Time) (streamID : string) (events : list any) (md : Metadata)
             (ex : MetadataExtractor any Ctx),
        mem.extractor s = Some ex ->
        events <> [] ->
        let merged := Merge (ex ctx h).1 (ex ctx h).2 [md] in
        let r := mem.Append h s ctx now streamID
                   (mem.current_version s streamID) events md in
        r.1.1 = merged.1
        /\ mem.stream_of r.1.2 streamID =
             mem.stream_of s streamID ++
             mem.stamped merged.2 now (mem.current_version s streamID) events
        /\ (forall k : string,
              deref r.1.1 merged.2 !! k =
                match deref (ex ctx h).1 md !! k with
                | Some v => Some v
                | None => deref (ex ctx h).1 (ex ctx h).2 !! k
                end)).
Proof.
  assert (Hlookup : forall (h : heap any) (m n : Metadata) (k : string),
            deref (Merge h m [n]).1 (Merge h m [n]).2 !! k =
              match deref h n !! k with
              | Some v => Some v
              | None => deref h m !! k
              end).
  { intros h m n k. rewrite Merge_closed. simpl. rewrite lookup_insert_eq. simpl.
    apply union_lookup_right_biased. }
  split; [|split].
  - intros h m n r. subst r. split; [apply Hlookup|]. rewrite Merge_closed. simpl.
    split.
    + intros l o Hl. rewrite lookup_insert_ne; [done|].
      intros <-. by rewrite fresh_loc_unused in Hl.
    + exists (fresh (dom h)). split; [done|apply fresh_loc_unused].
  - intros h m n t1 u1 u2 Hm Hn. apply map_eq. intros k.
    rewrite Hlookup, Hm, Hn.
    destruct (decide (k = "user"%string)) as [->|Hu].
    + rewrite lookup_singleton_eq. rewrite lookup_insert_ne by done.
      by rewrite lookup_singleton_eq.
    + rewrite lookup_singleton_ne by done.
      destruct (decide (k = "tenant"%string)) as [->|Ht].
      * by rewrite !lookup_insert_eq.
      * rewrite !lookup_insert_ne by done. by rewrite !lookup_singleton_ne.
  - intros Ctx h s ctx now streamID events md ex Hex Hne merged r. subst r.
    rewrite Append_match by done.
    unfold merge_extracted. rewrite Hex.
    destruct (ex ctx h) as [h' extracted] eqn:Hx. simpl. fold merged.
    split; [done|]. split.
    + unfold mem.stream_of at 1. simpl. by rewrite lookup_insert_eq.
    + subst merged. apply Hlookup.
Qed.

End AggregateClaims.

Lemma C4_witness :
  Int64.in_range (3 - 2)
  /\ (ges.Flush sample.base_with_two_pending).1.2 = 3 - 2
  /\ ges.applier_keeps_pending sample.fresh_account
  /\ (ges.Flush
        (ges.base
           (ges.Raise_all [sample.AccountOpened "1" "ann" 10; sample.MoneyDeposited 5]
              sample.fresh_account))).1.1 =
       ges.pending (ges.base sample.fresh_account) ++
       [sample.AccountOpened "1" "ann" 10; sample.MoneyDeposited 5].
Proof.
  assert (Hrange : Int64.in_range (3 - 2)) by (vm_compute; split; discriminate).
  assert (Hkeep : ges.applier_keeps_pending sample.fresh_account).
  { intros f e st Hf. simpl in Hf. injection Hf as <-.
    destruct st as [b [[o bal] op]]. by destruct e. }
  split; [exact Hrange|]. split; [|split; [exact Hkeep|]].
  - exact (proj1 (proj2 (proj2 (proj2
      (proj1 (C4_flush_returns_pending (any := sample.value))
         sample.base_with_two_pending)))) Hrange).
  - exact (proj1 (proj2 (C4_flush_returns_pending (any := sample.value)))
             (string * Z * bool)%type sample.fresh_account
             [sample.AccountOpened "1" "ann" 10; sample.MoneyDeposited 5] Hkeep).
Defined.

Lemma C7_witness :
  ges.deref sample.scenario_heap (Some 0%nat) =
    {[ "tenant"%string := sample.Str "t1"; "user"%string := sample.Str "u1" ]}
  /\ ges.deref sample.scenario_heap (Some 1%nat) =
       {[ "user"%string := sample.Str "u2" ]}
  /\ ges.deref (ges.Merge sample.scenario_heap (Some 0%nat) [Some 1%nat]).1
       (ges.Merge sample.scenario_heap (Some 0%nat) [Some 1%nat]).2 =
       {[ "tenant"%string := sample.Str "t1"; "user"%string := sample.Str "u2" ]}
  /\ mem.extractor sample.store_with_extractor = Some sample.tenant_extractor
  /\ (mem.Append sample.explicit_heap sample.store_with_extractor tt 10
        "Stream:1" (mem.current_version sample.store_with_extractor "Stream:1")
        [sample.Opened "1"] (Some 0%nat)).1.1 =
       (ges.Merge (sample.tenant_extractor tt sample.explicit_heap).1
          (sample.tenant_extractor tt sample.explicit_heap).2 [Some 0%nat]).1.
Proof.
  assert (Hm : ges.deref sample.scenario_heap (Some 0%nat) =
                 {[ "tenant"%string := sample.Str "t1";
                    "user"%string := sample.Str "u1" ]}) by reflexivity.
  assert (Hn : ges.deref sample.scenario_heap (Some 1%nat) =
                 {[ "user"%string := sample.Str "u2" ]}) by reflexivity.
  assert (Hex : mem.extractor sample.store_with_extractor =
                  Some sample.tenant_extractor) by reflexivity.
  assert (Hne : [sample.Opened "1"] <> []) by discriminate.
  split; [exact Hm|]. split; [exact Hn|]. split; [|split; [exact Hex|]].
  - exact (proj1 (proj2 (C7_merge_right_biased (any := sample.value)))
             sample.scenario_heap (Some 0%nat) (Some 1%nat)
             (sample.Str "t1") (sample.Str "u1") (sample.Str "u2") Hm Hn).
  - exact (proj1 (proj2 (proj2 (C7_merge_right_biased (any := sample.value)))
             unit sample.explicit_heap sample.store_with_extractor tt 10
             "Stream:1" [sample.Opened "1"] (Some 0%nat)
             sample.tenant_extractor Hex Hne)).
Defined.

Section PgxMoreFacts.
Import ges pgx.
Context {any : Type} `{GoAny any} {Ctx : Type}.
Variable json_Marshal : option (gmap string any) -> result bytes.
Implicit Types (db tx : table) (s : EventStore any Ctx) (h : heap any).
Implicit Types (md : Metadata) (events : list any).

(** A batch with an unregistered event never gets through the loop. *)
Lemma insert_events_unregistered s h md sid ev events : forall tx (cv : Z),
  Exists (fun e => typeRegistry s !! EventType e = None) events ->
  exists err, insert_events json_Marshal s h md sid ev tx cv events = Err err.
Proof.
  induction events as [|e events IH]; intros tx cv Hex.
  - by apply Exists_nil in Hex.
  - simpl. destruct (typeRegistry s !! EventType e) as [codec|] eqn:Hreg;
      [|eauto].
    apply Exists_cons in Hex as [Hex|Hex]; [congruence|].
    destruct (Encode codec e) as [payload|]; [|eauto].
    destruct (json_Marshal (md_value h md)) as [meta|]; [|eauto].
    destruct (exec_insert _ _) as [tx1|err]; [by apply IH|].
    destruct (isUniqueViolation err); eauto.
Qed.

(** A loop that gets through the batch has added one row per event,
    with consecutive versions. *)
Lemma insert_events_rows s h md sid ev events : forall tx (cv : Z) tx' (cv' : Z),
  insert_events json_Marshal s h md sid ev tx cv events = Ok (tx', cv') ->
  Int64.min_int64 <= cv ->
  cv + Z.of_nat (length events) <= Int64.max_int64 ->
  exists rows,
    tx' = tx ++ rows /\ cv' = cv + Z.of_nat (length events) /\
    length rows = length events /\
    (forall (i : nat) r, rows !! i = Some r ->
       stream_id r = sid /\ version r = cv + Z.of_nat i + 1).
Proof.
  induction events as [|e events IH]; intros tx cv tx' cv' Hrun Hmin Hmax.
  - simpl in Hrun. injection Hrun as <- <-. exists [].
    rewrite app_nil_r. simpl. split; [done|]. split; [lia|done].
  - simpl in Hrun. simpl length in Hmax.
    destruct (typeRegistry s !! EventType e) as [codec|]; [|done].
    destruct (Encode codec e) as [payload|]; [|done].
    destruct (json_Marshal (md_value h md)) as [meta|]; [|done].
    assert (Hadd : Int64.add cv 1 = cv + 1).
    { apply wrap_in_range. unfold Int64.in_range. lia. }
    rewrite Hadd in Hrun. unfold exec_insert in Hrun. simpl in Hrun.
    destruct (key_taken tx sid (cv + 1)); [done|].
    apply IH in Hrun as (rows & -> & -> & Hlen & Hrows); [|lia|lia].
    eexists (_ :: rows). split; [by rewrite <- app_assoc|].
    split; [simpl length; lia|]. split; [simpl; by rewrite Hlen|].
    intros [|i] r Hi; simpl in Hi.
    + injection Hi as <-. simpl. split; [done|lia].
    + apply Hrows in Hi as [-> ->]. split; [done|lia].
Qed.


End PgxMoreFacts.

Section StoreClaims.
Import ges.
Context {any : Type} `{GoAny any} {Ctx : Type}.
Variable json_Marshal : option (gmap string any) -> result bytes.
Implicit Types (h : heap any) (md : Metadata) (events : list any).

(** C5. For every stream, Append with an empty batch and expectedVersion
    equal to the stream's current version succeeds and returns
    expectedVersion unchanged; it stores no event and leaves that stream and
    every other stream (the whole store, or the whole table of the pgx store)
    as it was.  With any other expectedVersion the same call fails with a
    version-conflict error.  This holds for both backends. *)
Theorem C5_empty_batch_is_version_check :
  (forall h (s : mem.Store any Ctx) (ctx : Ctx) (now : Time) (streamID : string)
          (expectedVersion : Z) md,
     let r := mem.Append h s ctx now streamID expectedVersion [] md in
     (expectedVersion = mem.current_version s streamID ->
        r.2 = (expectedVersion, None) /\ r.1.2 = s)
     /\ (expectedVersion <> mem.current_version s streamID ->
           r.2 = (0, Some (VersionConflictError streamID expectedVersion
                             (mem.current_version s streamID)))
           /\ r.1.2 = s))
  /\ (forall h (db : pgx.table) (s : pgx.EventStore any Ctx) (ctx : Ctx)
             (streamID : string) (expectedVersion : Z) md,
        let r := pgx.Append json_Marshal h db s ctx streamID expectedVersion [] md in
        (expectedVersion = pgx.select_current_version db streamID ->
           r.2 = (expectedVersion, None) /\ r.1.2 = db)
        /\ (expectedVersion <> pgx.select_current_version db streamID ->
              r.2 = (0, Some (VersionConflictError streamID expectedVersion
                                (pgx.select_current_version db streamID)))
              /\ r.1.2 = db)).
Proof.
  split.
  - intros h s ctx now sid ev md r. subst r. split.
    + intros ->. by rewrite Append_empty.
    + intros Hne. by rewrite Append_mismatch.
  - intros h db s ctx sid ev md r. subst r. split.
    + intros ->. by rewrite pgx_Append_empty.
    + intros Hne. by rewrite pgx_Append_mismatch.
Qed.



(** C6 (amended).  In the pgx store every Append whose batch contains an
    event whose canonical type name has no codec in the store's registry
    fails and persists none of the batch's events.  The error is the
    missing-codec error when expectedVersion is the stream's current version
    and the events before that event were written; when expectedVersion is not
    the current version the call fails with the version conflict instead,
    because the version is compared first.  The in-memory store keeps no
    registry: its Append never returns a missing-codec error. *)
Theorem C6_missing_codec_fails_append :
  (forall h (db : pgx.table) (s : pgx.EventStore any Ctx) (ctx : Ctx)
          (streamID : string) (expectedVersion : Z) events md,
     Exists (fun e => pgx.typeRegistry s !! EventType e = None) events ->
     let r := pgx.Append json_Marshal h db s ctx streamID expectedVersion events md in
     (exists err, r.2 = (0, Some err)) /\ r.1.2 = db)
  /\ (forall h (db : pgx.table) (s : pgx.EventStore any Ctx) (ctx : Ctx)
             (streamID : string) (pre post : list any) (e : any) md
             (tx : pgx.table) (cv : Z),
        pgx.typeRegistry s !! EventType e = None ->
        let expected := pgx.select_current_version db streamID in
        let hm := merge_extracted (pgx.extractor s) ctx h md in
        pgx.insert_events json_Marshal s hm.1 hm.2 streamID expected db expected pre
          = Ok (tx, cv) ->
        let r := pgx.Append json_Marshal h db s ctx streamID expected
                   (pre ++ e :: post) md in
        r.2 = (0, Some (fmtError "ges-pgx: no codec registered for event type %q"
                          [EventType e]))
        /\ (forall err, r.2.2 = Some err -> pgx.is_missing_codec err)
        /\ r.1.2 = db)
  /\ (forall h (db : pgx.table) (s : pgx.EventStore any Ctx) (ctx : Ctx)
             (streamID : string) (expectedVersion : Z) events md,
        expectedVersion <> pgx.select_current_version db streamID ->
        let r := pgx.Append json_Marshal h db s ctx streamID expectedVersion events md in
        r.2 = (0, Some (VersionConflictError streamID expectedVersion
                          (pgx.select_current_version db streamID)))
        /\ (forall err, r.2.2 = Some err -> ~ pgx.is_missing_codec err)
        /\ r.1.2 = db)
  /\ (forall h (s : mem.Store any Ctx) (ctx : Ctx) (now : Time)
             (streamID : string) (expectedVersion : Z) events md err,
        (mem.Append h s ctx now streamID expectedVersion events md).2.2 = Some err ->
        ~ pgx.is_missing_codec err).
Proof.
  split; [|split; [|split]].
  - intros h db s ctx sid ev events md Hex r. subst r.
    destruct (decide (pgx.select_current_version db sid = ev)) as [<-|Hne].
    + assert (Hne : events <> []) by (intros ->; by apply Exists_nil in Hex).
      rewrite pgx_Append_match by done. cbv zeta.
      destruct (insert_events_unregistered json_Marshal s
                  (merge_extracted (pgx.extractor s) ctx h md).1
                  (merge_extracted (pgx.extractor s) ctx h md).2 sid
                  (pgx.select_current_version db sid) events db
                  (pgx.select_current_version db sid) Hex) as [err ->].
      simpl. eauto.
    + rewrite pgx_Append_mismatch by done. simpl. eauto.
  - intros h db s ctx sid pre post e md tx cv Hreg expected hm Hpre r.
    assert (Hne : pre ++ e :: post <> []) by by destruct pre.
    pose proof (pgx_Append_match json_Marshal h db s ctx sid (pre ++ e :: post)
                  md Hne) as Hr.
    subst r hm expected. cbv zeta in Hr.
    rewrite (insert_events_app json_Marshal s _ _ sid _ pre (e :: post)
               db _ tx cv Hpre) in Hr.
    simpl in Hr. rewrite Hreg in Hr. rewrite Hr. cbn [fst snd].
    split; [done|]. split; [|done].
    intros err [= <-]. by exists (EventType e).
  - intros h db s ctx sid ev events md Hne r. subst r.
    rewrite pgx_Append_mismatch by done. cbn [fst snd].
    split; [done|]. split; [|done].
    intros err [= <-] [ty Hty]. discriminate.
  - intros h s ctx now sid ev events md err Herr [ty ->].
    destruct (decide (mem.current_version s sid = ev)) as [<-|Hne].
    + destruct events as [|e events].
      * by rewrite Append_empty in Herr.
      * by rewrite Append_match in Herr.
    + by rewrite Append_mismatch in Herr.
Qed.

End StoreClaims.

Lemma C5_witness :
  2 = mem.current_version sample.store_after_history.2 "Stream:1"
  /\ (mem.Append sample.store_after_history.1 sample.store_after_history.2
        tt 30 "Stream:1" 2 [] None).2 = (2, None)
  /\ 0 = pgx.select_current_version [] "Stream:1"
  /\ (pgx.Append sample.marshal_any ∅ [] sample.pg_store_plain tt
        "Stream:1" 0 [] None).2 = (0, None)
  /\ 3 <> pgx.select_current_version [] "Stream:1"
  /\ (pgx.Append sample.marshal_any ∅ [] sample.pg_store_plain tt
        "Stream:1" 3 [] None).2 =
       (0, Some (ges.VersionConflictError "Stream:1" 3
                   (pgx.select_current_version [] "Stream:1"))).
Proof.
  assert (Hcv : 2 = mem.current_version sample.store_after_history.2 "Stream:1")
    by (vm_compute; reflexivity).
  assert (Hpg : 0 = pgx.select_current_version [] "Stream:1") by reflexivity.
  assert (Hne : 3 <> pgx.select_current_version [] "Stream:1")
    by (vm_compute; discriminate).
  split; [exact Hcv|]. split; [|split; [exact Hpg|split; [|split; [exact Hne|]]]].
  - exact (proj1 (proj1 (proj1
      (C5_empty_batch_is_version_check (any := sample.value) (Ctx := unit)
         sample.marshal_any)
      sample.store_after_history.1 sample.store_after_history.2
      tt 30 "Stream:1" 2 None) Hcv)).
  - exact (proj1 (proj1 (proj2
      (C5_empty_batch_is_version_check (any := sample.value) (Ctx := unit)
         sample.marshal_any)
      ∅ [] sample.pg_store_plain tt "Stream:1" 0 None) Hpg)).
  - exact (proj1 (proj2 (proj2
      (C5_empty_batch_is_version_check (any := sample.value) (Ctx := unit)
         sample.marshal_any)
      ∅ [] sample.pg_store_plain tt "Stream:1" 3 None) Hne)).
Defined.




(** C6, as stated, fails: in the pgx store an Append with a stale
    expectedVersion and an unregistered event fails with the version
    conflict, not with the missing-codec error; and the in-memory store,
    which keeps no registry, appends the event. *)
Lemma C6_counterexample :
  pgx.typeRegistry sample.pg_store_plain !! ges.EventType (sample.Opened "1") = None
  /\ sample.stale_unregistered.2 =
       (0, Some (ges.VersionConflictError "Stream:1" 1 0))
  /\ ~ (exists err, sample.stale_unregistered.2.2 = Some err
                    /\ pgx.is_missing_codec err)
  /\ sample.mem_first_append.2 = (1, None)
  /\ mem.payload <$> mem.stream_of sample.mem_first_append.1.2 "Stream:1" =
       [sample.Opened "1"].
Proof.
  split; [reflexivity|]. split; [reflexivity|]. split.
  - intros (err & Herr & ty & ->). vm_compute in Herr. discriminate.
  - split; reflexivity.
Qed.

Lemma C6_witness :
  pgx.typeRegistry sample.pg_store_registered
    !! ges.EventType (sample.MoneyDeposited 5) = None
  /\ sample.unregistered_append.2 =
       (0, Some (ges.fmtError "ges-pgx: no codec registered for event type %q"
                   [ges.EventType (sample.MoneyDeposited 5)]))
  /\ sample.unregistered_append.1.2 = [].
Proof.
  assert (Hreg : pgx.typeRegistry sample.pg_store_registered
                   !! ges.EventType (sample.MoneyDeposited 5) = None)
    by reflexivity.
  assert (Hex : Exists (fun e => pgx.typeRegistry sample.pg_store_registered
                                   !! ges.EventType e = None)
                  ([] ++ [sample.MoneyDeposited 5]))
    by (constructor; exact Hreg).
  split; [exact Hreg|].
  pose proof (proj1 (proj2
    (C6_missing_codec_fails_append (any := sample.value) (Ctx := unit)
       sample.marshal_any))
    ∅ [] sample.pg_store_registered tt "Stream:1" [] []
    (sample.MoneyDeposited 5) None [] (pgx.select_current_version [] "Stream:1")
    Hreg eq_refl) as Hmiss.
  pose proof (proj1
    (C6_missing_codec_fails_append (any := sample.value) (Ctx := unit)
       sample.marshal_any)
    ∅ [] sample.pg_store_registered tt "Stream:1"
    (pgx.select_current_version [] "Stream:1")
    ([] ++ [sample.MoneyDeposited 5]) None Hex) as Hkeep.
  cbv zeta in Hmiss, Hkeep.
  split; [exact (proj1 Hmiss)|exact (proj2 Hkeep)].
Defined.

(* ===================================================================== *)
(** * Further properties of the code *)
(* ===================================================================== *)

(** ** Metadata, errors, stream identifiers *)

Section MergeMore.
Import ges.
Context {any : Type} `{GoAny any}.
Implicit Types (h : heap any) (r : gmap string any) (out : loc).

Lemma Merge_receiver out h (m : Metadata) :
  h !! out = None ->
  match m with
  | Some _ => range_copy out (<[out := ∅]> h) m
  | None => <[out := ∅]> h
  end = <[out := deref h m]> h.
Proof.
  intros Hout. destruct m as [l|]; [|done].
  rewrite (range_copy_closed out _ ∅) by apply lookup_insert_eq.
  rewrite (right_id_L ∅ (∪)), insert_insert_eq.
  rewrite deref_insert_fresh by done.
  destruct (decide _) as [[= ->]|]; [|done].
  by rewrite deref_dangling.
Qed.

Lemma Merge_arguments out h (ms : list Metadata) : forall r,
  h !! out = None ->
  foldl (range_copy out) (<[out := r]> h) ms =
    <[out := foldl (fun acc n => deref h n ∪ acc) r ms]> h.
Proof.
  induction ms as [|n ms IH]; intros r Hout; simpl; [done|].
  rewrite (range_copy_closed out _ r) by apply lookup_insert_eq.
  rewrite insert_insert_eq, deref_insert_fresh by done.
  destruct (decide _) as [->|].
  - rewrite deref_dangling by done.
    rewrite (left_id_L ∅ (∪)), (idemp_L (∪)). by apply IH.
  - by apply IH.
Qed.

(** The heap and the reference [m.Merge(ms...)] returns. *)
Lemma Merge_all_closed h (m : Metadata) (ms : list Metadata) :
  Merge h m ms =
    (<[fresh (dom h) := foldl (fun acc n => deref h n ∪ acc) (deref h m) ms]> h,
     Some (fresh (dom h))).
Proof.
  unfold Merge. f_equal.
  rewrite Merge_receiver by apply fresh_loc_unused.
  apply Merge_arguments, fresh_loc_unused.
Qed.

Lemma deref_allocated out h r (m : Metadata) :
  h !! out = None ->
  (forall l, m = Some l -> is_Some (h !! l)) ->
  deref (<[out := r]> h) m = deref h m.
Proof.
  intros Hout Hm. rewrite deref_insert_fresh by done.
  destruct (decide _) as [->|]; [|done].
  destruct (Hm out eq_refl) as [x Hx]. congruence.
Qed.

(** X1. m.Merge(ms...) returns a new map whose contents are m's entries
    overwritten by the entries of each argument in turn, so that a later
    argument wins over an earlier one and over the receiver; and merging two
    maps in one call gives the same contents as chaining two calls,
    m.Merge(a).Merge(b), for maps a and b of the heap (or nil). *)
Theorem X1_merge_variadic_later_wins :
  (forall h (m : Metadata) (ms : list Metadata),
     deref (Merge h m ms).1 (Merge h m ms).2 =
       foldl (fun acc n => deref h n ∪ acc) (deref h m) ms)
  /\ (forall h (m a b : Metadata) (k : string),
        deref (Merge h m [a; b]).1 (Merge h m [a; b]).2 !! k =
          match deref h b !! k with
          | Some v => Some v
          | None => match deref h a !! k with
                    | Some v => Some v
                    | None => deref h m !! k
                    end
          end)
  /\ (forall h (m a b : Metadata),
        (forall l, b = Some l -> is_Some (h !! l)) ->
        let r1 := Merge h m [a] in
        let r2 := Merge r1.1 r1.2 [b] in
        deref r2.1 r2.2 = deref (Merge h m [a; b]).1 (Merge h m [a; b]).2).
Proof.
  assert (Hall : forall h (m : Metadata) (ms : list Metadata),
            deref (Merge h m ms).1 (Merge h m ms).2 =
              foldl (fun acc n => deref h n ∪ acc) (deref h m) ms).
  { intros h m ms. rewrite Merge_all_closed. simpl. by rewrite lookup_insert_eq. }
  split; [done|]. split.
  - intros h m a b k. rewrite Hall. simpl.
    by rewrite !union_lookup_right_biased.
  - intros h m a b Hb r1 r2. subst r2 r1. rewrite !Hall.
    rewrite Merge_closed. simpl fst. simpl snd. simpl foldl.
    rewrite (deref_allocated _ h _ b) by (apply fresh_loc_unused || done).
    simpl. rewrite ?lookup_insert_eq. done.
Qed.


End MergeMore.


Lemma X1_witness :
  (forall l, Some 1%nat = Some l -> is_Some (sample.scenario_heap !! l))
  /\ ges.deref
       (ges.Merge (ges.Merge sample.scenario_heap None [Some 0%nat]).1
          (ges.Merge sample.scenario_heap None [Some 0%nat]).2 [Some 1%nat]).1
       (ges.Merge (ges.Merge sample.scenario_heap None [Some 0%nat]).1
          (ges.Merge sample.scenario_heap None [Some 0%nat]).2 [Some 1%nat]).2 =
     ges.deref (ges.Merge sample.scenario_heap None [Some 0%nat; Some 1%nat]).1
       (ges.Merge sample.scenario_heap None [Some 0%nat; Some 1%nat]).2.
Proof.
  assert (Hb : forall l, Some 1%nat = Some l -> is_Some (sample.scenario_heap !! l)).
  { intros l [= <-]. eexists; reflexivity. }
  split; [exact Hb|].
  exact (proj2 (proj2 (X1_merge_variadic_later_wins (any := sample.value)))
           sample.scenario_heap None (Some 0%nat) (Some 1%nat) Hb).
Defined.




Lemma after_prefix_app (prefix rest : string) :
  repository.after_prefix prefix (prefix ++ rest) = Some rest.
Proof.
  induction prefix as [|a prefix IH]; simpl; [done|].
  by rewrite Ascii.eqb_refl.
Qed.

(** X4. accountIDFromStreamID undoes the stream identifier of an account:
    applied to "Account:" followed by an id it returns the id, so in
    particular accountIDFromStreamID(a.StreamID()) is the account's id; a
    string that does not start with "Account:" is returned as it is. *)
Theorem X4_account_id_from_stream_id :
  (forall id : string,
     repository.accountIDFromStreamID ("Account:" ++ id) = id)
  /\ (forall (any : Type) (a : account.Account any),
        repository.accountIDFromStreamID (account.StreamID a) = account.id a)
  /\ (forall s : string,
        repository.HasPrefix s repository.accountPrefix = false ->
        repository.accountIDFromStreamID s = s).
Proof.
  assert (Hid : forall id : string,
            repository.accountIDFromStreamID ("Account:" ++ id) = id).
  { intros id. unfold repository.accountIDFromStreamID, repository.HasPrefix,
      repository.TrimPrefix, repository.accountPrefix.
    by rewrite after_prefix_app. }
  split; [done|]. split.
  - intros any a. apply Hid.
  - intros s Hs. unfold repository.accountIDFromStreamID. by rewrite Hs.
Qed.

Lemma X4_witness :
  repository.HasPrefix "Order:7" repository.accountPrefix = false
  /\ repository.accountIDFromStreamID "Order:7" = "Order:7"%string.
Proof.
  assert (Hs : repository.HasPrefix "Order:7" repository.accountPrefix = false)
    by reflexivity.
  split; [exact Hs|].
  exact (proj2 (proj2 X4_account_id_from_stream_id) "Order:7"%string Hs).
Defined.

(** ** Base *)

Lemma wrap_add_wrap (a b : Z) : Int64.wrap (Int64.wrap a + b) = Int64.wrap (a + b).
Proof.
  unfold Int64.wrap. f_equal.
  replace ((a + 2 ^ 63) mod 2 ^ 64 - 2 ^ 63 + b + 2 ^ 63)
    with ((a + 2 ^ 63) mod 2 ^ 64 + b) by lia.
  rewrite Zplus_mod_idemp_l. f_equal. lia.
Qed.

Section BaseMore.
Import ges.
Context {any : Type} `{GoAny any} {D : Type}.
Implicit Types (a : Agg any D) (e : any) (es : list any).

Lemma keeps_bookkeeping_pending a :
  applier_keeps_bookkeeping a -> applier_keeps_pending a.
Proof. intros Hk f e st Hf. by apply Hk. Qed.

Lemma applier_Apply e a : applier (Apply e a) = applier a.
Proof.
  unfold Apply, call_applier. simpl.
  destruct (applier a) as [f|] eqn:Hf; [|by rewrite Hf].
  by destruct (f e (base a, dom_state a)).
Qed.

Lemma base_Apply e a :
  applier_keeps_bookkeeping a ->
  version (base (Apply e a)) = Int64.add (version (base a)) 1
  /\ pending (base (Apply e a)) = pending (base a).
Proof.
  intros Hk. unfold Apply, call_applier. simpl.
  destruct (applier a) as [f|] eqn:Hf; [|done].
  destruct (Hk f e (base a, dom_state a) Hf) as [Hv Hp].
  destruct (f e (base a, dom_state a)) as [b' d']. simpl in *.
  by rewrite Hv, Hp.
Qed.

Lemma keeps_bookkeeping_Apply e a :
  applier_keeps_bookkeeping a -> applier_keeps_bookkeeping (Apply e a).
Proof. unfold applier_keeps_bookkeeping. by rewrite applier_Apply. Qed.

Lemma base_Apply_all es : forall a,
  applier_keeps_bookkeeping a ->
  Int64.wrap (version (base (Apply_all es a))) =
    Int64.wrap (version (base a) + Z.of_nat (length es))
  /\ pending (base (Apply_all es a)) = pending (base a).
Proof.
  induction es as [|e es IH]; intros a Hk.
  - simpl. split; [f_equal; lia|done].
  - destruct (base_Apply e a Hk) as [Hv Hp].
    destruct (IH (Apply e a) (keeps_bookkeeping_Apply e a Hk)) as [Hv' Hp'].
    change (Apply_all (e :: es) a) with (Apply_all es (Apply e a)).
    rewrite Hv', Hp', Hv, Hp. split; [|done].
    unfold Int64.add. rewrite wrap_add_wrap. f_equal. simpl length. lia.
Qed.

Lemma version_Apply_all_exact es : forall a,
  applier_keeps_bookkeeping a ->
  Int64.in_range (version (base a)) ->
  Int64.in_range (version (base a) + Z.of_nat (length es)) ->
  version (base (Apply_all es a)) = version (base a) + Z.of_nat (length es).
Proof.
  induction es as [|e es IH]; intros a Hk Hlo Hhi.
  - simpl. lia.
  - destruct (base_Apply e a Hk) as [Hv _].
    assert (Hone : Int64.add (version (base a)) 1 = version (base a) + 1).
    { apply wrap_in_range. unfold Int64.in_range in *. simpl length in Hhi. lia. }
    change (Apply_all (e :: es) a) with (Apply_all es (Apply e a)).
    rewrite IH; [| by apply keeps_bookkeeping_Apply | |].
    + rewrite Hv, Hone. simpl length. lia.
    + rewrite Hv, Hone. unfold Int64.in_range in *. simpl length in Hhi. lia.
    + rewrite Hv, Hone. unfold Int64.in_range in *. simpl length in Hhi.
      split; [lia|]. replace (version (base a) + 1 + Z.of_nat (length es))
        with (version (base a) + Z.of_nat (S (length es))) by lia. lia.
Qed.

Lemma version_Raise e a :
  applier_keeps_bookkeeping a ->
  version (base (Raise e a)) = Int64.add (version (base a)) 1.
Proof. intros Hk. unfold Raise. simpl. by apply base_Apply. Qed.

Lemma version_Raise_all es : forall a,
  applier_keeps_bookkeeping a ->
  Int64.wrap (version (base (Raise_all es a))) =
    Int64.wrap (version (base a) + Z.of_nat (length es)).
Proof.
  induction es as [|e es IH]; intros a Hk.
  - simpl. f_equal. lia.
  - assert (Hk' : applier_keeps_bookkeeping (Raise e a)).
    { unfold applier_keeps_bookkeeping. by rewrite applier_Raise. }
    unfold Raise_all. simpl foldl. fold (Raise_all es (Raise e a)).
    rewrite (IH (Raise e a) Hk'), version_Raise by done.
    unfold Int64.add. rewrite wrap_add_wrap. f_equal. simpl length. lia.
Qed.

(** X5. Replaying events with Apply, under an applier that leaves the
    Base's bookkeeping alone, advances the version by one per event (in int64
    arithmetic; exactly, when the version before and after are int64 values)
    and never touches the pending buffer: replayed events are not queued for
    persistence. *)
Theorem X5_replay_advances_version a es :
  applier_keeps_bookkeeping a ->
  Int64.wrap (version (base (Apply_all es a))) =
    Int64.wrap (version (base a) + Z.of_nat (length es))
  /\ (Int64.in_range (version (base a)) ->
      Int64.in_range (version (base a) + Z.of_nat (length es)) ->
      version (base (Apply_all es a)) = version (base a) + Z.of_nat (length es))
  /\ pending (base (Apply_all es a)) = pending (base a).
Proof.
  intros Hk. destruct (base_Apply_all es a Hk) as [Hv Hp].
  split; [done|]. split; [|done].
  intros Hlo Hhi. by apply version_Apply_all_exact.
Qed.

Lemma in_range_Raise_all es : forall a,
  applier_keeps_bookkeeping a ->
  Int64.in_range (version (base a)) ->
  Int64.in_range (version (base (Raise_all es a))).
Proof.
  induction es as [|e es IH]; intros a Hk Hr; [done|].
  change (Raise_all (e :: es) a) with (Raise_all es (Raise e a)).
  apply IH.
  - unfold applier_keeps_bookkeeping. by rewrite applier_Raise.
  - rewrite version_Raise by done. apply wrap_is_in_range.
Qed.

(** X6. Raising events and then flushing hands back the version the
    aggregate had before the raises: from a Base with an empty pending buffer
    and an int64 version v, under an applier that leaves the bookkeeping
    alone, Flush after raising es returns es and expectedVersion v, the
    version the store is at when nobody else has written.  A second Flush in
    a row returns no events and the current version. *)
Theorem X6_raise_flush_expected_version a es :
  applier_keeps_bookkeeping a ->
  pending (base a) = [] ->
  Int64.in_range (version (base a)) ->
  (Flush (base (Raise_all es a))).1 = (es, version (base a))
  /\ (Flush (Flush (base (Raise_all es a))).2).1.1 = []
  /\ (Flush (Flush (base (Raise_all es a))).2).1.2 =
       version (base (Raise_all es a)).
Proof.
  intros Hk Hp Hr.
  assert (Hpend : pending (base (Raise_all es a)) = es).
  { rewrite pending_Raise_all by by apply keeps_bookkeeping_pending.
    by rewrite Hp. }
  split; [|split].
  - unfold Flush. simpl. rewrite Hpend. f_equal.
    unfold Int64.sub.
    replace (version (base (Raise_all es a)) - Z.of_nat (length es))
      with (version (base (Raise_all es a)) + - Z.of_nat (length es)) by lia.
    rewrite <- wrap_add_wrap, version_Raise_all by done.
    rewrite wrap_add_wrap.
    replace (version (base a) + Z.of_nat (length es) + - Z.of_nat (length es))
      with (version (base a)) by lia.
    by apply wrap_in_range.
  - done.
  - unfold Flush. simpl. unfold Int64.sub. rewrite Z.sub_0_r.
    by apply wrap_in_range, in_range_Raise_all.
Qed.

End BaseMore.

Lemma sample_when_keeps_bookkeeping :
  ges.applier_keeps_bookkeeping sample.fresh_account.
Proof.
  intros f e st Hf. simpl in Hf. injection Hf as <-.
  destruct st as [b [[o bal] op]]. by destruct e.
Qed.

Lemma X5_witness :
  ges.applier_keeps_bookkeeping sample.fresh_account
  /\ Int64.in_range (ges.version (ges.base sample.fresh_account))
  /\ ges.version
       (ges.base
          (ges.Apply_all [sample.AccountOpened "1" "ann" 10; sample.MoneyDeposited 5]
             sample.fresh_account)) =
     ges.version (ges.base sample.fresh_account) + 2.
Proof.
  assert (Hlo : Int64.in_range (ges.version (ges.base sample.fresh_account)))
    by (vm_compute; split; discriminate).
  assert (Hhi : Int64.in_range
                  (ges.version (ges.base sample.fresh_account) +
                   Z.of_nat (length [sample.AccountOpened "1" "ann" 10;
                                     sample.MoneyDeposited 5])))
    by (vm_compute; split; discriminate).
  split; [exact sample_when_keeps_bookkeeping|]. split; [exact Hlo|].
  exact (proj1 (proj2
    (X5_replay_advances_version sample.fresh_account
       [sample.AccountOpened "1" "ann" 10; sample.MoneyDeposited 5]
       sample_when_keeps_bookkeeping)) Hlo Hhi).
Defined.

Lemma X6_witness :
  ges.applier_keeps_bookkeeping sample.fresh_account
  /\ ges.pending (ges.base sample.fresh_account) = []
  /\ Int64.in_range (ges.version (ges.base sample.fresh_account))
  /\ (ges.Flush
        (ges.base
           (ges.Raise_all [sample.AccountOpened "1" "ann" 10; sample.MoneyDeposited 5]
              sample.fresh_account))).1 =
       ([sample.AccountOpened "1" "ann" 10; sample.MoneyDeposited 5],
        ges.version (ges.base sample.fresh_account)).
Proof.
  assert (Hp : ges.pending (ges.base sample.fresh_account) = []) by reflexivity.
  assert (Hr : Int64.in_range (ges.version (ges.base sample.fresh_account)))
    by (vm_compute; split; discriminate).
  split; [exact sample_when_keeps_bookkeeping|]. split; [exact Hp|].
  split; [exact Hr|].
  exact (proj1
    (X6_raise_flush_expected_version sample.fresh_account
       [sample.AccountOpened "1" "ann" 10; sample.MoneyDeposited 5]
       sample_when_keeps_bookkeeping Hp Hr)).
Defined.

(** ** The example account *)

Section AccountMore.
Import account.
Context {any : Type}.
Variable view : any -> event_view.
Variable command : any -> command_view.
Variable event_value : event_view -> any.
Implicit Types (a : Account any) (e cmd : any) (es : list any).

Lemma flushed_Apply e a : flushed (Apply view e a) = Apply view e (flushed a).
Proof. unfold flushed, Apply. by destruct (view e). Qed.

Lemma flushed_record e a : flushed (record view e a) = Apply view e (flushed a).
Proof. unfold flushed, record, Apply. by destruct (view e). Qed.

Lemma version_Apply e a :
  version (Apply view e a) = Int64.add (version a) 1.
Proof. unfold Apply. by destruct (view e). Qed.

Lemma opened_Apply e a : opened a = true -> opened (Apply view e a) = true.
Proof. unfold Apply. by destruct (view e). Qed.

(** X7. Handle rejects a command exactly in these cases: opening an
    account that is already opened, with an empty id or with a negative
    initial balance; depositing into an account that is not opened, or an
    amount that is not positive; and any value that is neither command.  A
    rejected command changes nothing in the account: no state, no version, no
    pending event. *)
Theorem X7_handle_rejections cmd a :
  ((Handle view command event_value cmd a).2 <> None <->
   match command cmd with
   | OpenAccountCommand accountID _ initial =>
       opened a = true \/ accountID = ""%string \/ initial < 0
   | DepositCommand _ amount => opened a = false \/ amount <= 0
   | OtherCommand _ => True
   end)
  /\ (forall err, (Handle view command event_value cmd a).2 = Some err ->
        (Handle view command event_value cmd a).1 = a).
Proof.
  unfold Handle. destruct (command cmd) as [accountID o initial|accountID amount|ty].
  - destruct (opened a); [split; [split; [auto|done]|done]|].
    case_bool_decide as Hid; [split; [split; [auto|done]|done]|].
    destruct (Z.ltb_spec initial 0); [split; [split; [auto|done]|done]|].
    simpl. split; [|done]. split; [done|].
    intros [?|[?|?]]; [done|done|lia].
  - destruct (opened a); simpl; [|split; [split; [auto|done]|done]].
    destruct (Z.leb_spec amount 0); [split; [split; [auto|done]|done]|].
    simpl. split; [|done]. split; [done|]. intros [?|?]; [done|lia].
  - simpl. split; [|done]. split; done.
Qed.

(** X8. A command that Handle accepts records exactly one event: the
    version goes up by one, the event is added at the end of the pending
    buffer, and the account is opened.  Opening sets id, owner and balance
    from the command; a deposit adds the amount to the balance and ignores the
    command's AccountID.  (The event values are read back by the type switch
    as what they were built from.) *)
Theorem X8_handle_accepts cmd a :
  (forall ev, ev <> OtherEvent -> view (event_value ev) = ev) ->
  (Handle view command event_value cmd a).2 = None ->
  match command cmd with
  | OpenAccountCommand accountID o initial =>
      (Handle view command event_value cmd a).1 =
        {| id := accountID; owner := o; balance := initial;
           version := Int64.add (version a) 1;
           pend := pend a ++ [event_value (AccountOpened accountID o initial)];
           opened := true |}
  | DepositCommand _ amount =>
      (Handle view command event_value cmd a).1 =
        {| id := id a; owner := owner a;
           balance := Int64.add (balance a) amount;
           version := Int64.add (version a) 1;
           pend := pend a ++ [event_value (MoneyDeposited amount)];
           opened := true |}
  | OtherCommand _ => False
  end.
Proof.
  intros Hview. unfold Handle.
  destruct (command cmd) as [accountID o initial|accountID amount|ty].
  - destruct (opened a); [done|]. case_bool_decide; [done|].
    destruct (initial <? 0); [done|]. intros _. simpl.
    unfold record, Apply. by rewrite Hview.
  - destruct (opened a) eqn:Hop; [|done]. simpl.
    destruct (amount <=? 0); [done|]. intros _. simpl.
    unfold record, Apply. rewrite Hview by done. simpl. by rewrite Hop.
  - done.
Qed.

Lemma Restore_flushed es : forall a,
  Restore view es (flushed a) = flushed (record_all view es a).
Proof.
  induction es as [|e es IH]; intros a; [done|].
  change (record_all view (e :: es) a) with (record_all view es (record view e a)).
  rewrite <- IH, flushed_record. done.
Qed.

Lemma Restore_keeps_pend es : forall a, pend (Restore view es a) = pend a.
Proof.
  induction es as [|e es IH]; intros a; [done|].
  change (Restore view (e :: es) a) with (Restore view es (Apply view e a)).
  rewrite IH. unfold Apply. by destruct (view e).
Qed.

(** X9. Replaying the recorded events reproduces the state: for every
    account and every list of events, Restore of the events on the account
    with its pending buffer emptied gives the account that recording them
    produced, with its pending buffer emptied; and the pending buffer after
    recording holds the old pending events followed by exactly those events. *)
Theorem X9_replay_reproduces_recorded_state es a :
  Restore view es (flushed a) = flushed (record_all view es a)
  /\ pend (record_all view es a) = pend a ++ es
  /\ pend (Restore view es a) = pend a.
Proof.
  split; [|split].
  - apply Restore_flushed.
  - apply pend_record_all.
  - apply Restore_keeps_pend.
Qed.

Lemma version_Restore es : forall a,
  Int64.wrap (version (Restore view es a)) =
    Int64.wrap (version a + Z.of_nat (length es)).
Proof.
  induction es as [|e es IH]; intros a.
  - simpl. f_equal. lia.
  - change (Restore view (e :: es) a) with (Restore view es (Apply view e a)).
    rewrite IH, version_Apply. unfold Int64.add. rewrite wrap_add_wrap.
    f_equal. simpl length. lia.
Qed.

Lemma version_Restore_exact es : forall a,
  Int64.in_range (version a) ->
  Int64.in_range (version a + Z.of_nat (length es)) ->
  version (Restore view es a) = version a + Z.of_nat (length es).
Proof.
  induction es as [|e es IH]; intros a Hlo Hhi.
  - simpl. lia.
  - change (Restore view (e :: es) a) with (Restore view es (Apply view e a)).
    assert (Hone : Int64.add (version a) 1 = version a + 1).
    { apply wrap_in_range. unfold Int64.in_range in *. simpl length in Hhi. lia. }
    rewrite IH; rewrite version_Apply, Hone.
    + simpl length. lia.
    + unfold Int64.in_range in *. simpl length in Hhi. lia.
    + unfold Int64.in_range in *. simpl length in Hhi. lia.
Qed.

(** X10. Restore advances the version by the number of replayed events
    (in int64 arithmetic; exactly, when the versions are int64 values), and
    replaying a history in two parts, first a prefix and then the rest (as
    from a snapshot taken in between), gives the same account as replaying it
    in one go. *)
Theorem X10_restore_counts_and_splits a es1 es2 :
  Restore view (es1 ++ es2) a = Restore view es2 (Restore view es1 a)
  /\ Int64.wrap (version (Restore view es1 a)) =
       Int64.wrap (version a + Z.of_nat (length es1))
  /\ (Int64.in_range (version a) ->
      Int64.in_range (version a + Z.of_nat (length es1)) ->
      version (Restore view es1 a) = version a + Z.of_nat (length es1)).
Proof.
  split; [|split].
  - unfold Restore. apply foldl_app.
  - apply version_Restore.
  - apply version_Restore_exact.
Qed.

(** X11. An opened account stays opened: no replayed event and no
    command, accepted or rejected, closes it, and every later command to open
    it is rejected as already opened. *)
Theorem X11_opened_is_permanent a :
  opened a = true ->
  (forall es, opened (Restore view es a) = true)
  /\ (forall cmd, opened (Handle view command event_value cmd a).1 = true)
  /\ (forall cmd accountID o initial,
        command cmd = OpenAccountCommand accountID o initial ->
        Handle view command event_value cmd a =
          (a, Some (ges.fmtError "account already opened" []))).
Proof.
  intros Hop. split; [|split].
  - intros es. revert a Hop. induction es as [|e es IH]; intros a Hop; [done|].
    change (Restore view (e :: es) a) with (Restore view es (Apply view e a)).
    by apply IH, opened_Apply.
  - intros cmd. unfold Handle.
    destruct (command cmd) as [accountID o initial|accountID amount|ty];
      rewrite ?Hop; simpl; [done| |done].
    destruct (amount <=? 0); [done|]. simpl. by apply opened_Apply.
  - intros cmd accountID o initial Hcmd. unfold Handle. by rewrite Hcmd, Hop.
Qed.

End AccountMore.

Lemma bank_view_event_value (ev : account.event_view) :
  ev <> account.OtherEvent -> bank.view (bank.event_value ev) = ev.
Proof. by destruct ev. Qed.

Lemma X7_witness :
  (account.Handle bank.view bank.command bank.event_value
     (bank.DepositCommand "7" 0) bank.taro).2 =
    Some (ges.fmtError "invalid deposit amount" [])
  /\ (account.Handle bank.view bank.command bank.event_value
        (bank.DepositCommand "7" 0) bank.taro).1 = bank.taro.
Proof.
  assert (Herr : (account.Handle bank.view bank.command bank.event_value
                    (bank.DepositCommand "7" 0) bank.taro).2 =
                 Some (ges.fmtError "invalid deposit amount" [])) by reflexivity.
  split; [exact Herr|].
  exact (proj2 (X7_handle_rejections bank.view bank.command bank.event_value
                  (bank.DepositCommand "7" 0) bank.taro) _ Herr).
Defined.

Lemma X8_witness :
  (account.Handle bank.view bank.command bank.event_value
     (bank.DepositCommand "7" 25) bank.taro).2 = None
  /\ (account.Handle bank.view bank.command bank.event_value
        (bank.DepositCommand "7" 25) bank.taro).1 =
       {| account.id := account.id bank.taro;
          account.owner := account.owner bank.taro;
          account.balance := Int64.add (account.balance bank.taro) 25;
          account.version := Int64.add (account.version bank.taro) 1;
          account.pend := account.pend bank.taro ++
                          [bank.event_value (account.MoneyDeposited 25)];
          account.opened := true |}.
Proof.
  assert (Hok : (account.Handle bank.view bank.command bank.event_value
                   (bank.DepositCommand "7" 25) bank.taro).2 = None)
    by reflexivity.
  split; [exact Hok|].
  exact (X8_handle_accepts bank.view bank.command bank.event_value
           (bank.DepositCommand "7" 25) bank.taro bank_view_event_value Hok).
Defined.

Lemma X10_witness :
  Int64.in_range (account.version (account.zero (any := bank.value)))
  /\ account.version
       (account.Restore bank.view
          [bank.AccountOpened "7" "Taro" 1000; bank.MoneyDeposited 500]
          account.zero) = 0 + 2.
Proof.
  assert (Hlo : Int64.in_range (account.version (account.zero (any := bank.value))))
    by (vm_compute; split; discriminate).
  assert (Hhi : Int64.in_range
                  (account.version (account.zero (any := bank.value)) +
                   Z.of_nat (length [bank.AccountOpened "7" "Taro" 1000;
                                     bank.MoneyDeposited 500])))
    by (vm_compute; split; discriminate).
  split; [exact Hlo|].
  exact (proj2 (proj2
    (X10_restore_counts_and_splits bank.view account.zero
       [bank.AccountOpened "7" "Taro" 1000; bank.MoneyDeposited 500] []))
    Hlo Hhi).
Defined.

Lemma X11_witness :
  account.opened bank.taro = true
  /\ account.Handle bank.view bank.command bank.event_value
       (bank.OpenAccountCommand "7" "Taro" 5) bank.taro =
     (bank.taro, Some (ges.fmtError "account already opened" [])).
Proof.
  assert (Hop : account.opened bank.taro = true) by reflexivity.
  split; [exact Hop|].
  exact (proj2 (proj2
    (X11_opened_is_permanent bank.view bank.command bank.event_value
       bank.taro Hop))
    (bank.OpenAccountCommand "7" "Taro" 5) "7"%string "Taro"%string 5 eq_refl).
Defined.

(** ** The in-memory store *)

Section MemMore.
Import ges mem.
Context {any : Type} `{GoAny any} {Ctx : Type}.
Implicit Types (s : Store any Ctx) (st : heap any * Store any Ctx).
Implicit Types (h : heap any) (md : Metadata) (events : list any).

Lemma stamped_app md now (cv : Z) events1 events2 :
  stamped md now cv (events1 ++ events2) =
    stamped md now cv events1 ++
    stamped md now (cv + Z.of_nat (length events1)) events2.
Proof.
  revert cv. induction events1 as [|e events1 IH]; intros cv; simpl.
  - by rewrite Z.add_0_r.
  - rewrite IH. do 3 f_equal. lia.
Qed.

(** X12. Append of the in-memory store is all or nothing and touches one
    stream only.  When it returns an error it returns version 0 and the store
    is exactly as before.  When it succeeds, expectedVersion was the stream's
    current version, the returned version is expectedVersion plus the size of
    the batch, and the stream is the old stream followed by one stored event
    per event of the batch.  In both cases every other stream, every snapshot
    and the configured extractor are unchanged. *)
Theorem X12_mem_append_effect h s ctx now (streamID : string)
    (expectedVersion : Z) events md :
  let r := Append h s ctx now streamID expectedVersion events md in
  (forall err, r.2.2 = Some err -> r.2.1 = 0 /\ r.1.2 = s)
  /\ (r.2.2 = None ->
        expectedVersion = current_version s streamID
        /\ r.2.1 = expectedVersion + Z.of_nat (length events)
        /\ stream_of r.1.2 streamID =
             stream_of s streamID ++
             stamped (merge_extracted (extractor s) ctx h md).2 now
               expectedVersion events)
  /\ (forall other : string, other <> streamID ->
        stream_of r.1.2 other = stream_of s other)
  /\ snapshots r.1.2 = snapshots s
  /\ extractor r.1.2 = extractor s.
Proof.
  intros r. subst r.
  destruct (decide (current_version s streamID = expectedVersion)) as [<-|Hne].
  - destruct events as [|e events].
    + rewrite Append_empty. simpl. rewrite app_nil_r, Z.add_0_r. done.
    + rewrite Append_match by done. cbn [fst snd].
      split; [done|]. split; [|split; [|done]].
      * intros _. split; [done|]. split; [done|].
        rewrite stream_of_insert. by rewrite decide_True.
      * intros other Hother. rewrite stream_of_insert.
        by rewrite decide_False.
  - rewrite Append_mismatch by done. simpl. done.
Qed.

(** X13. Every event a successful in-memory Append stores carries the
    next consecutive version, the payload of the batch at the same position,
    the canonical type name of that payload, and the same metadata reference
    and the same timestamp as every other event of the batch. *)
Theorem X13_mem_append_envelope h s ctx now (streamID : string) events md
    (i : nat) (e : storedEvent any) :
  let r := Append h s ctx now streamID (current_version s streamID) events md in
  stream_of r.1.2 streamID !! (length (stream_of s streamID) + i)%nat = Some e ->
  events !! i = Some (payload e)
  /\ version e = current_version s streamID + Z.of_nat i + 1
  /\ typ e = EventType (payload e)
  /\ metadata e = (merge_extracted (extractor s) ctx h md).2
  /\ at_ e = now.
Proof.
  intros r He.
  assert (Hseq : stream_of r.1.2 streamID =
                 stream_of s streamID ++
                 stamped (merge_extracted (extractor s) ctx h md).2 now
                   (current_version s streamID) events).
  { subst r. destruct events as [|e0 events].
    - rewrite Append_empty. simpl. by rewrite app_nil_r.
    - rewrite Append_match by done. cbn [fst snd].
      rewrite stream_of_insert. by rewrite decide_True. }
  rewrite Hseq in He.
  rewrite lookup_app_r in He by lia.
  replace (length (stream_of s streamID) + i - length (stream_of s streamID))%nat
    with i in He by lia.
  apply lookup_stamped in He as (Hv & Hmd & Hat & Hp & Hty). done.
Qed.

(** X14. Without a metadata extractor, appending a batch in one call, at
    the stream's current version, has the same effect and the same result as
    appending a first part of it and then the rest at the version the first
    call returned (with the same metadata and clock reading). *)
Theorem X14_mem_append_splits h s ctx now (streamID : string)
    (events1 events2 : list any) md :
  extractor s = None ->
  let v := current_version s streamID in
  let r := Append h s ctx now streamID v (events1 ++ events2) md in
  let r1 := Append h s ctx now streamID v events1 md in
  let r2 := Append r1.1.1 r1.1.2 ctx now streamID r1.2.1 events2 md in
  r2 = r.
Proof.
  intros Hex v r r1 r2. subst r2 r1 r v.
  assert (Hmd : forall h', merge_extracted (extractor s) ctx h' md = (h', md))
    by (intros h'; by rewrite Hex).
  destruct events1 as [|e1 events1].
  - rewrite Append_empty, Hmd. simpl. done.
  - rewrite (Append_match h s ctx now streamID (e1 :: events1)) by done.
    rewrite Hmd. cbn [fst snd].
    set (s1 := {| streams := _; snapshots := _; extractor := _ |}).
    assert (Hs1 : stream_of s1 streamID =
                    stream_of s streamID ++
                    stamped md now (current_version s streamID) (e1 :: events1)).
    { subst s1. rewrite stream_of_insert. by rewrite decide_True. }
    assert (Hcv : current_version s1 streamID =
                    current_version s streamID +
                    Z.of_nat (length (e1 :: events1))).
    { unfold current_version at 1. rewrite Hs1, length_app, length_stamped.
      unfold current_version. lia. }
    rewrite <- Hcv.
    assert (Hex1 : extractor s1 = None) by done.
    rewrite (Append_match h s ctx now streamID ((e1 :: events1) ++ events2))
      by done.
    rewrite Hmd. cbn [fst snd].
    destruct events2 as [|e2 events2].
    + rewrite Append_empty. rewrite Hex1. simpl merge_extracted. cbn [fst snd].
      rewrite app_nil_r, Hcv. subst s1. reflexivity.
    + rewrite Append_match by done. rewrite Hex1. simpl merge_extracted.
      cbn [fst snd]. rewrite Hs1, Hcv. subst s1. cbn [streams snapshots extractor].
      rewrite insert_insert_eq, stamped_app, <- app_assoc.
      f_equal; [|f_equal; rewrite length_app; simpl length; lia].
      f_equal. by rewrite Hex.
Qed.

(** X15. On a reachable in-memory store, loading from a version v splits
    the full history: the events of Load(streamID, 0) are their first v
    events followed by the events of Load(streamID, v), so a state built from
    the first v events and then the delta sees the whole history.  Load
    returns max(0, current - max(v, 0)) events, a negative fromVersion loads
    everything, and lastVersion does not depend on fromVersion. *)
Theorem X15_mem_load_splits_history st (streamID : string) (v : Z) :
  reachable st ->
  (Load st.2 streamID 0).1.1 =
    take (Z.to_nat v) (Load st.2 streamID 0).1.1 ++ (Load st.2 streamID v).1.1
  /\ Z.of_nat (length (Load st.2 streamID v).1.1) =
       Z.max 0 (current_version st.2 streamID - Z.max v 0)
  /\ (v < 0 -> Load st.2 streamID v = Load st.2 streamID 0)
  /\ (Load st.2 streamID v).1.2 = (Load st.2 streamID 0).1.2.
Proof.
  intros Hreach. apply versions_ok_reachable in Hreach.
  specialize (Hreach streamID).
  rewrite !Load_closed by done. rewrite !gapless_filter by done.
  change (Z.to_nat 0) with 0%nat. rewrite drop_0. cbn [fst snd].
  split; [|split; [|split; [|done]]].
  - rewrite <- fmap_take, <- fmap_app. by rewrite take_drop.
  - rewrite length_fmap, length_drop. unfold current_version. lia.
  - intros Hneg. by replace (Z.to_nat v) with 0%nat by lia.
Qed.

(** X16. SaveSnapshot of the in-memory store changes nothing but the
    snapshot of its stream: what Load returns for any stream and any version,
    the current version of every stream and the snapshot of every other stream
    stay the same; and of two saves for one stream the later one is the one
    LoadSnapshot returns. *)
Theorem X16_mem_save_snapshot_frame s (now1 now2 : Time) (streamID : string)
    (v1 v2 : Z) (state1 state2 : any) :
  let s1 := (SaveSnapshot s now1 streamID v1 state1).1 in
  let s2 := (SaveSnapshot s1 now2 streamID v2 state2).1 in
  (forall (other : string) (fromVersion : Z),
     Load s1 other fromVersion = Load s other fromVersion)
  /\ (forall other : string, current_version s1 other = current_version s other)
  /\ (forall other : string, other <> streamID ->
        LoadSnapshot s1 other = LoadSnapshot s other)
  /\ LoadSnapshot s2 streamID =
       ({| State := state2; Version := v2; Found := true; At_ := now2 |}, None).
Proof.
  intros s1 s2. subst s2 s1. split; [done|]. split; [done|]. split.
  - intros other Hother. unfold LoadSnapshot, SaveSnapshot. simpl.
    by rewrite lookup_insert_ne.
  - unfold LoadSnapshot, SaveSnapshot. simpl. by rewrite lookup_insert_eq.
Qed.

End MemMore.

Lemma X12_witness :
  (mem.Append sample.store_after_history.1 sample.store_after_history.2
     tt 30 "Stream:1" 0 [sample.Added 1] None).2.2 =
    Some (ges.VersionConflictError "Stream:1" 0 2)
  /\ (mem.Append sample.store_after_history.1 sample.store_after_history.2
        tt 30 "Stream:1" 0 [sample.Added 1] None).1.2 =
       sample.store_after_history.2.
Proof.
  assert (Herr : (mem.Append sample.store_after_history.1
                    sample.store_after_history.2
                    tt 30 "Stream:1" 0 [sample.Added 1] None).2.2 =
                 Some (ges.VersionConflictError "Stream:1" 0 2))
    by reflexivity.
  split; [exact Herr|].
  exact (proj2 (proj1
    (X12_mem_append_effect sample.store_after_history.1
       sample.store_after_history.2 tt 30 "Stream:1" 0 [sample.Added 1] None)
    _ Herr)).
Defined.

Lemma X13_witness :
  mem.stream_of
    (mem.Append sample.store_after_history.1 sample.store_after_history.2
       tt 30 "Stream:1"
       (mem.current_version sample.store_after_history.2 "Stream:1")
       [sample.Added 1] None).1.2 "Stream:1"
    !! (length (mem.stream_of sample.store_after_history.2 "Stream:1") + 0)%nat =
    Some {| mem.version := 3; mem.payload := sample.Added 1;
            mem.metadata := None; mem.typ := "Added"; mem.at_ := 30 |}
  /\ mem.typ {| mem.version := 3; mem.payload := sample.Added 1;
                mem.metadata := None; mem.typ := "Added"; mem.at_ := 30 |} =
     ges.EventType (sample.Added 1).
Proof.
  assert (He : mem.stream_of
                 (mem.Append sample.store_after_history.1
                    sample.store_after_history.2 tt 30 "Stream:1"
                    (mem.current_version sample.store_after_history.2 "Stream:1")
                    [sample.Added 1] None).1.2 "Stream:1"
                 !! (length (mem.stream_of sample.store_after_history.2
                               "Stream:1") + 0)%nat =
               Some {| mem.version := 3; mem.payload := sample.Added 1;
                       mem.metadata := None; mem.typ := "Added";
                       mem.at_ := 30 |}) by reflexivity.
  split; [exact He|].
  exact (proj1 (proj2 (proj2
    (X13_mem_append_envelope sample.store_after_history.1
       sample.store_after_history.2 tt 30 "Stream:1" [sample.Added 1] None
       0%nat _ He)))).
Defined.

Lemma X14_witness :
  mem.extractor sample.store_after_history.2 = None
  /\ mem.Append
       (mem.Append sample.store_after_history.1 sample.store_after_history.2
          tt 30 "Stream:1"
          (mem.current_version sample.store_after_history.2 "Stream:1")
          [sample.Added 1] None).1.1
       (mem.Append sample.store_after_history.1 sample.store_after_history.2
          tt 30 "Stream:1"
          (mem.current_version sample.store_after_history.2 "Stream:1")
          [sample.Added 1] None).1.2
       tt 30 "Stream:1"
       (mem.Append sample.store_after_history.1 sample.store_after_history.2
          tt 30 "Stream:1"
          (mem.current_version sample.store_after_history.2 "Stream:1")
          [sample.Added 1] None).2.1
       [sample.Added 2] None =
     mem.Append sample.store_after_history.1 sample.store_after_history.2
       tt 30 "Stream:1"
       (mem.current_version sample.store_after_history.2 "Stream:1")
       ([sample.Added 1] ++ [sample.Added 2]) None.
Proof.
  assert (Hex : mem.extractor sample.store_after_history.2 = None)
    by reflexivity.
  split; [exact Hex|].
  exact (X14_mem_append_splits sample.store_after_history.1
           sample.store_after_history.2 tt 30 "Stream:1"
           [sample.Added 1] [sample.Added 2] None Hex).
Defined.

Lemma X15_witness :
  mem.reachable sample.store_after_history
  /\ (mem.Load sample.store_after_history.2 "Stream:1" 0).1.1 =
       take (Z.to_nat 1) (mem.Load sample.store_after_history.2 "Stream:1" 0).1.1
       ++ (mem.Load sample.store_after_history.2 "Stream:1" 1).1.1.
Proof.
  assert (Hreach : mem.reachable sample.store_after_history).
  { exists ∅, [], sample.history. reflexivity. }
  split; [exact Hreach|].
  exact (proj1
    (X15_mem_load_splits_history sample.store_after_history "Stream:1" 1 Hreach)).
Defined.

(** ** The PostgreSQL store: append *)

Section PgxAppendMore.
Import ges pgx.
Context {any : Type} `{GoAny any} {Ctx : Type}.
Variable json_Marshal : option (gmap string any) -> result bytes.
Implicit Types (db tx : table) (s : EventStore any Ctx) (h : heap any).
Implicit Types (md : Metadata) (events : list any).

(** The rows a loop that gets through the batch has added: one per
    event, with the event's type name, its encoding and the marshalled
    metadata. *)
Lemma insert_events_written s h md sid ev events : forall tx (cv : Z) tx' (cv' : Z),
  insert_events json_Marshal s h md sid ev tx cv events = Ok (tx', cv') ->
  exists rows,
    tx' = tx ++ rows /\ length rows = length events /\
    (forall (i : nat) r, rows !! i = Some r ->
       exists e codec,
         events !! i = Some e /\ stream_id r = sid /\
         event_type r = EventType e /\
         typeRegistry s !! EventType e = Some codec /\
         Encode codec e = Ok (payload r) /\
         json_Marshal (md_value h md) = Ok (metadata r)).
Proof.
  induction events as [|e events IH]; intros tx cv tx' cv' Hrun.
  - simpl in Hrun. injection Hrun as <- <-. exists [].
    by rewrite app_nil_r.
  - simpl in Hrun.
    destruct (typeRegistry s !! EventType e) as [codec|] eqn:Hreg; [|done].
    destruct (Encode codec e) as [pl|] eqn:Hpl; [|done].
    destruct (json_Marshal (md_value h md)) as [meta|] eqn:Hmeta; [|done].
    unfold exec_insert in Hrun. simpl in Hrun.
    destruct (key_taken tx sid (Int64.add cv 1)); [done|].
    apply IH in Hrun as (rows & -> & Hlen & Hrows).
    eexists (_ :: rows). split; [by rewrite <- app_assoc|].
    split; [simpl; by rewrite Hlen|].
    intros [|i] r Hi; simpl in Hi.
    + injection Hi as <-. exists e, codec. simpl. done.
    + by apply Hrows in Hi.
Qed.

Lemma keys_unique_snoc tx (r : event_row) :
  keys_unique tx ->
  key_taken tx (stream_id r) (version r) = false ->
  keys_unique (tx ++ [r]).
Proof.
  intros Huniq Hfree i j ri rj Hi Hj Hsid Hv.
  assert (Hnot : forall (k : nat) rk, tx !! k = Some rk ->
            stream_id rk = stream_id r -> version rk = version r -> False).
  { intros k rk Hk Hs Hver.
    assert (Hex : key_taken tx (stream_id r) (version r) = true).
    { unfold key_taken. apply existsb_exists. exists rk. split.
      - apply list_elem_of_In. by apply list_elem_of_lookup_2 in Hk.
      - rewrite bool_decide_eq_true_2 by done. simpl. by apply Z.eqb_eq. }
    congruence. }
  apply lookup_app_Some in Hi as [Hi|[Hige Hi]];
    apply lookup_app_Some in Hj as [Hj|[Hjge Hj]].
  - by apply (Huniq i j ri rj).
  - apply list_lookup_singleton_Some in Hj as [_ <-].
    destruct (Hnot i ri Hi Hsid Hv).
  - apply list_lookup_singleton_Some in Hi as [_ <-].
    destruct (Hnot j rj Hj (eq_sym Hsid) (eq_sym Hv)).
  - apply list_lookup_singleton_Some in Hi as [Hi _].
    apply list_lookup_singleton_Some in Hj as [Hj _]. lia.
Qed.

Lemma insert_events_keys s h md sid ev events : forall tx (cv : Z) tx' (cv' : Z),
  keys_unique tx ->
  insert_events json_Marshal s h md sid ev tx cv events = Ok (tx', cv') ->
  keys_unique tx'.
Proof.
  induction events as [|e events IH]; intros tx cv tx' cv' Huniq Hrun.
  - simpl in Hrun. by injection Hrun as <- <-.
  - simpl in Hrun.
    destruct (typeRegistry s !! EventType e) as [codec|]; [|done].
    destruct (Encode codec e) as [pl|]; [|done].
    destruct (json_Marshal (md_value h md)) as [meta|]; [|done].
    unfold exec_insert in Hrun. simpl in Hrun.
    destruct (key_taken tx sid (Int64.add cv 1)) eqn:Hkey; [done|].
    apply IH in Hrun; [done|]. by apply keys_unique_snoc.
Qed.

(** The three ways Append returns. *)
Lemma pgx_Append_table h db s ctx sid (ev : Z) events md :
  let hm := merge_extracted (extractor s) ctx h md in
  (exists err,
     Append json_Marshal h db s ctx sid ev events md = (hm.1, db, (0, Some err)))
  \/ (events = [] /\ ev = select_current_version db sid
      /\ Append json_Marshal h db s ctx sid ev events md = (hm.1, db, (ev, None)))
  \/ (exists tx cv,
        insert_events json_Marshal s hm.1 hm.2 sid ev db ev events = Ok (tx, cv)
        /\ ev = select_current_version db sid
        /\ Append json_Marshal h db s ctx sid ev events md = (hm.1, tx, (cv, None))).
Proof.
  intros hm. subst hm. unfold Append.
  destruct (merge_extracted _ _ _ _) as [h1 md1]. cbn [fst snd].
  destruct (Z.eqb_spec (select_current_version db sid) ev) as [->|];
    [|left; eauto].
  cbn [negb]. destruct events as [|e events]; [right; left; done|].
  change (length (e :: events) =? 0)%nat with false. cbv iota.
  destruct (insert_events _ _ _ _ _ _ _ _ _) as [[tx cv]|err] eqn:Hrun;
    [|left; eauto].
  right. right. by exists tx, cv.
Qed.

(** X17. The events table only grows under the pgx Append: the table
    after the call is the table before it followed by the rows the call
    wrote, so no existing row is changed or removed.  A call that returns an
    error wrote nothing.  A call that succeeds wrote one row per event of the
    batch, in order, for the given stream, with the event's canonical type
    name, the codec's encoding of the event and the marshalled metadata; the
    versions are expectedVersion+1, +2, ... when these are int64 values. *)
Theorem X17_pgx_append_only h db s ctx (streamID : string) (expectedVersion : Z)
    events md :
  let r := Append json_Marshal h db s ctx streamID expectedVersion events md in
  let hm := merge_extracted (extractor s) ctx h md in
  exists rows,
    r.1.2 = db ++ rows
    /\ (forall err, r.2.2 = Some err -> rows = [])
    /\ (r.2.2 = None ->
          length rows = length events
          /\ (forall (i : nat) row, rows !! i = Some row ->
                exists e codec,
                  events !! i = Some e /\ stream_id row = streamID /\
                  event_type row = EventType e /\
                  typeRegistry s !! EventType e = Some codec /\
                  Encode codec e = Ok (payload row) /\
                  json_Marshal (md_value hm.1 hm.2) = Ok (metadata row))
          /\ (Int64.min_int64 <= expectedVersion ->
              expectedVersion + Z.of_nat (length events) <= Int64.max_int64 ->
              r.2.1 = expectedVersion + Z.of_nat (length events)
              /\ forall (i : nat) row, rows !! i = Some row ->
                   version row = expectedVersion + Z.of_nat i + 1)).
Proof.
  intros r hm.
  destruct (pgx_Append_table h db s ctx streamID expectedVersion events md)
    as [[err Hr]|[(-> & Hev & Hr)|(tx & cv & Hrun & Hev & Hr)]];
    fold r in Hr; fold hm in Hr.
  - exists []. rewrite app_nil_r, Hr. done.
  - exists []. rewrite app_nil_r, Hr. cbn [fst snd].
    split; [done|]. split; [done|]. intros _. split; [done|]. split; [done|].
    intros _ _. split; [simpl; lia|done].
  - fold hm in Hrun.
    destruct (insert_events_written s hm.1 hm.2 streamID expectedVersion events
                db expectedVersion tx cv Hrun) as (rows & -> & Hlen & Hrows).
    exists rows. rewrite Hr. cbn [fst snd].
    split; [done|]. split; [done|]. intros _. split; [done|]. split; [done|].
    intros Hmin Hmax.
    destruct (insert_events_rows json_Marshal s hm.1 hm.2 streamID expectedVersion
                events db expectedVersion (db ++ rows) cv Hrun Hmin Hmax)
      as (rows' & Heq & -> & _ & Hver).
    apply app_inv_head in Heq. subst rows'. split; [done|].
    intros i row Hi. by destruct (Hver i row Hi).
Qed.

(** X18. The pgx Append keeps the primary key of the events table: if no
    two rows of the table share stream id and version before the call, none
    do after it, whether the call succeeds or fails. *)
Theorem X18_pgx_append_keeps_keys_unique h db s ctx (streamID : string)
    (expectedVersion : Z) events md :
  keys_unique db ->
  keys_unique (Append json_Marshal h db s ctx streamID expectedVersion events md).1.2.
Proof.
  intros Huniq.
  destruct (pgx_Append_table h db s ctx streamID expectedVersion events md)
    as [[err ->]|[(_ & _ & ->)|(tx & cv & Hrun & _ & ->)]]; [done|done|].
  cbn [fst snd]. by apply insert_events_keys in Hrun.
Qed.

End PgxAppendMore.

(** ** The PostgreSQL store: load *)

Section PgxLoadMore.
Import ges pgx.
Context {any : Type} `{GoAny any} {Ctx : Type}.
Variable json_Marshal : option (gmap string any) -> result bytes.
Variable jsonb_text : bytes -> bytes.
Implicit Types (db tx rows : table) (s : EventStore any Ctx) (h : heap any).
Implicit Types (md : Metadata) (events out : list any) (r : event_row).

Lemma insert_by_version_perm r rows : insert_by_version r rows ≡ₚ r :: rows.
Proof.
  induction rows as [|r' rows IH]; simpl; [done|].
  destruct (version r <=? version r'); [done|].
  rewrite IH. apply Permutation_swap.
Qed.

Lemma order_by_version_perm rows : order_by_version rows ≡ₚ rows.
Proof.
  induction rows as [|r rows IH]; simpl; [done|].
  by rewrite insert_by_version_perm, IH.
Qed.

Lemma insert_by_version_sorted r rows :
  StronglySorted (fun a b => version a <= version b) rows ->
  StronglySorted (fun a b => version a <= version b) (insert_by_version r rows).
Proof.
  induction rows as [|r' rows IH]; intros Hs; simpl.
  - by repeat constructor.
  - apply StronglySorted_inv in Hs as [Hs Hall].
    destruct (Z.leb_spec (version r) (version r')) as [Hle|Hgt].
    + constructor; [by constructor|]. constructor; [done|].
      eapply Forall_impl; [exact Hall|]. simpl. intros x Hx. lia.
    + constructor; [by apply IH|].
      rewrite insert_by_version_perm. constructor; [lia|done].
Qed.

Lemma order_by_version_sorted rows :
  StronglySorted (fun a b => version a <= version b) (order_by_version rows).
Proof.
  induction rows as [|r rows IH]; simpl; [constructor|].
  by apply insert_by_version_sorted.
Qed.

Lemma insert_by_version_app r rows tail :
  Forall (fun y => version r <= version y) tail ->
  insert_by_version r (rows ++ tail) = insert_by_version r rows ++ tail.
Proof.
  intros Htail. induction rows as [|r' rows IH]; simpl.
  - destruct tail as [|y tail]; [done|]. simpl.
    apply Forall_cons in Htail as [Hy _].
    by destruct (Z.leb_spec (version r) (version y)); [|lia].
  - destruct (version r <=? version r'); [done|]. by rewrite IH.
Qed.

Lemma order_by_version_fixed rows :
  StronglySorted (fun a b => version a <= version b) rows ->
  order_by_version rows = rows.
Proof.
  induction rows as [|r rows IH]; intros Hs; simpl; [done|].
  apply StronglySorted_inv in Hs as [Hs Hall]. rewrite IH by done.
  exact (insert_by_version_app r [] rows Hall).
Qed.

Lemma order_by_version_app rows tail :
  StronglySorted (fun a b => version a <= version b) tail ->
  Forall (fun x => Forall (fun y => version x <= version y) tail) rows ->
  order_by_version (rows ++ tail) = order_by_version rows ++ tail.
Proof.
  intros Hs. induction rows as [|r rows IH]; intros Hall; simpl.
  - by apply order_by_version_fixed.
  - apply Forall_cons in Hall as [Hr Hall]. rewrite IH by done.
    by apply insert_by_version_app.
Qed.

Lemma elem_of_select_events db sid (fromVersion : Z) r :
  r ∈ select_events db sid fromVersion <->
  r ∈ db /\ stream_id r = sid /\ fromVersion < version r.
Proof.
  unfold select_events. rewrite order_by_version_perm, list_elem_of_filter.
  tauto.
Qed.

(** What the loop of Load has read when it gets through the rows. *)
Lemma decode_rows_ok s rows : forall out (lastv : Z) out' (lastv' : Z),
  decode_rows jsonb_text s rows out lastv = Ok (out', lastv') ->
  exists evs,
    out' = out ++ evs /\ length evs = length rows /\
    lastv' = default lastv (version <$> last rows) /\
    (forall (i : nat) r, rows !! i = Some r ->
       exists codec ev,
         typeRegistry s !! event_type r = Some codec /\
         Decode codec (jsonb_text (payload r)) = Ok ev /\
         evs !! i = Some ev).
Proof.
  induction rows as [|r rows IH]; intros out lastv out' lastv' Hrun.
  - simpl in Hrun. injection Hrun as <- <-. exists []. by rewrite app_nil_r.
  - simpl in Hrun.
    destruct (typeRegistry s !! event_type r) as [codec|] eqn:Hreg; [|done].
    destruct (Decode codec (jsonb_text (payload r))) as [ev|] eqn:Hdec; [|done].
    apply IH in Hrun as (evs & -> & Hlen & -> & Hevs).
    exists (ev :: evs). split; [by rewrite <- app_assoc|].
    split; [simpl; by rewrite Hlen|]. split.
    + destruct rows as [|r' rows']; [done|]. rewrite last_cons_cons.
      destruct (last (r' :: rows')) eqn:Hl; [done|]. by apply last_None in Hl.
    + intros [|i] r0 Hi; simpl in Hi.
      * injection Hi as <-. by exists codec, ev.
      * by apply Hevs in Hi.
Qed.

Lemma decode_rows_app s rows tail : forall out (lastv : Z),
  decode_rows jsonb_text s (rows ++ tail) out lastv =
    match decode_rows jsonb_text s rows out lastv with
    | Ok (out', lastv') => decode_rows jsonb_text s tail out' lastv'
    | Err err => Err err
    end.
Proof.
  induction rows as [|r rows IH]; intros out lastv; simpl; [done|].
  destruct (typeRegistry s !! event_type r) as [codec|]; [|done].
  by destruct (Decode codec (jsonb_text (payload r))).
Qed.

Lemma decode_rows_error s rows : forall out (lastv : Z) err,
  decode_rows jsonb_text s rows out lastv = Err err ->
  Exists (fun r => forall codec ev,
            typeRegistry s !! event_type r = Some codec ->
            Decode codec (jsonb_text (payload r)) <> Ok ev) rows.
Proof.
  induction rows as [|r rows IH]; intros out lastv err Hrun; simpl in Hrun; [done|].
  destruct (typeRegistry s !! event_type r) as [codec|] eqn:Hreg.
  - destruct (Decode codec (jsonb_text (payload r))) as [ev|e] eqn:Hdec.
    + apply Exists_cons_tl. by apply IH in Hrun.
    + apply Exists_cons_hd. intros codec' ev' Hc. rewrite Hreg in Hc.
      injection Hc as <-. congruence.
  - apply Exists_cons_hd. intros codec ev Hc. congruence.
Qed.

(** X19. The pgx Load reads the rows of the stream with a version above
    fromVersion in ascending version order, whatever their order in the
    table, and decodes each with the codec registered for its event type:
    when it returns without error, the i-th returned event is the decoding of
    the i-th such row, and lastVersion is the version of the last row read, or
    0 when no row was read. *)
Theorem X19_pgx_load_reads_in_version_order db s (streamID : string)
    (fromVersion : Z) out (lastVersion : Z) :
  Load jsonb_text db s streamID fromVersion = (out, lastVersion, None) ->
  exists rows,
    rows ≡ₚ filter (fun r => stream_id r = streamID /\ fromVersion < version r) db
    /\ StronglySorted (fun a b => version a <= version b) rows
    /\ length out = length rows
    /\ lastVersion = default 0 (version <$> last rows)
    /\ (forall (i : nat) r, rows !! i = Some r ->
          exists codec ev,
            typeRegistry s !! event_type r = Some codec /\
            Decode codec (jsonb_text (payload r)) = Ok ev /\
            out !! i = Some ev).
Proof.
  unfold Load. intros Hload.
  destruct (decode_rows _ _ _ _ _) as [[out' lastv']|err] eqn:Hrun; [|done].
  injection Hload as -> ->.
  apply decode_rows_ok in Hrun as (evs & -> & Hlen & -> & Hevs).
  exists (select_events db streamID fromVersion).
  split; [apply order_by_version_perm|].
  split; [apply order_by_version_sorted|]. done.
Qed.

(** X20. The pgx Load returns no event and lastVersion 0 whenever no row
    of the stream has a version above fromVersion, even when the stream holds
    events (the in-memory Load returns the stream's current version there).
    It fails exactly when one of the rows it has to read cannot be decoded,
    because no codec is registered for its event type or because the codec
    rejects the payload; it then returns no event and lastVersion 0. *)
Theorem X20_pgx_load_edges db s (streamID : string) (fromVersion : Z) :
  ((forall r, r ∈ db -> stream_id r = streamID -> version r <= fromVersion) ->
     Load jsonb_text db s streamID fromVersion = ([], 0, None))
  /\ (forall err, (Load jsonb_text db s streamID fromVersion).2 = Some err ->
        (Load jsonb_text db s streamID fromVersion).1 = ([], 0)
        /\ exists r, r ∈ db /\ stream_id r = streamID /\ fromVersion < version r
             /\ forall codec ev,
                  typeRegistry s !! event_type r = Some codec ->
                  Decode codec (jsonb_text (payload r)) <> Ok ev)
  /\ ((Load jsonb_text db s streamID fromVersion).2 = None ->
        forall r, r ∈ db -> stream_id r = streamID -> fromVersion < version r ->
          exists codec ev,
            typeRegistry s !! event_type r = Some codec /\
            Decode codec (jsonb_text (payload r)) = Ok ev).
Proof.
  split; [|split].
  - intros Hnone. unfold Load.
    assert (Hsel : select_events db streamID fromVersion = []).
    { destruct (select_events db streamID fromVersion) as [|r rows] eqn:Hs;
        [done|].
      assert (Hr : r ∈ select_events db streamID fromVersion)
        by (rewrite Hs; left).
      apply elem_of_select_events in Hr as (Hr & Hsid & Hv).
      specialize (Hnone r Hr Hsid). lia. }
    by rewrite Hsel.
  - intros err. unfold Load.
    destruct (decode_rows _ _ _ _ _) as [[out lastv]|err'] eqn:Hrun; [done|].
    intros _. split; [done|].
    apply decode_rows_error in Hrun. apply Exists_exists in Hrun as (r & Hr & Hbad).
    apply elem_of_select_events in Hr as (Hr & Hsid & Hv). eauto 6.
  - unfold Load.
    destruct (decode_rows _ _ _ _ _) as [[out lastv]|err'] eqn:Hrun; [|done].
    intros _ r Hr Hsid Hv.
    apply decode_rows_ok in Hrun as (evs & _ & _ & _ & Hevs).
    assert (Hsel : r ∈ select_events db streamID fromVersion)
      by by apply elem_of_select_events.
    apply list_elem_of_lookup in Hsel as [i Hi].
    destruct (Hevs i r Hi) as (codec & ev & Hreg & Hdec & _). eauto.
Qed.

End PgxLoadMore.

Section PgxRoundTrip.
Import ges pgx.
Context {any : Type} `{GoAny any} {Ctx : Type}.
Variable json_Marshal : option (gmap string any) -> result bytes.
Variable jsonb_text : bytes -> bytes.
Implicit Types (db tx rows : table) (s : EventStore any Ctx) (h : heap any).
Implicit Types (md : Metadata) (events out : list any) (r : event_row).

Lemma filter_all {A : Type} (P : A -> Prop) `{forall x, Decision (P x)}
    (l : list A) :
  Forall P l -> filter P l = l.
Proof.
  induction 1 as [|x l Hx Hl IH]; [done|].
  by rewrite filter_cons_True, IH.
Qed.

Lemma consecutive_sorted rows : forall c : Z,
  (forall (i : nat) r, rows !! i = Some r -> version r = c + Z.of_nat i + 1) ->
  StronglySorted (fun a b => version a <= version b) rows.
Proof.
  induction rows as [|r rows IH]; intros c Hrows; [constructor|].
  constructor.
  - apply (IH (c + 1)). intros i r' Hi. rewrite (Hrows (S i) r') by done. lia.
  - apply Forall_lookup. intros i r' Hi.
    rewrite (Hrows 0%nat r), (Hrows (S i) r') by done. lia.
Qed.

(** Reading back rows that an append wrote, with codecs that decode what
    they encoded. *)
Lemma decode_written s rows : forall events out (lastv : Z),
  length rows = length events ->
  (forall (i : nat) r, rows !! i = Some r ->
     exists e codec,
       events !! i = Some e /\ event_type r = EventType e /\
       typeRegistry s !! EventType e = Some codec /\
       Encode codec e = Ok (payload r)) ->
  (forall e codec pl, e ∈ events ->
     typeRegistry s !! EventType e = Some codec ->
     Encode codec e = Ok pl -> Decode codec (jsonb_text pl) = Ok e) ->
  decode_rows jsonb_text s rows out lastv =
    Ok (out ++ events, default lastv (version <$> last rows)).
Proof.
  induction rows as [|r rows IH]; intros events out lastv Hlen Hrows Hrt.
  - destruct events; [|done]. simpl. by rewrite app_nil_r.
  - destruct events as [|e events]; [done|].
    destruct (Hrows 0%nat r eq_refl) as (e0 & codec & He0 & Hty & Hreg & Henc).
    injection He0 as <-. simpl. rewrite Hty, Hreg.
    rewrite (Hrt e codec (payload r)); [|left|done|done].
    rewrite (IH events (out ++ [e]) (version r)).
    + rewrite <- app_assoc. simpl. do 2 f_equal.
      destruct rows as [|r' rows']; [done|]. rewrite last_cons_cons.
      destruct (last (r' :: rows')) eqn:Hl; [done|]. by apply last_None in Hl.
    + simpl in Hlen. lia.
    + intros i r' Hi. destruct (Hrows (S i) r' Hi) as (e' & codec' & He' & Hrest).
      exists e', codec'. done.
    + intros e' codec' pl Hin. apply Hrt. by right.
Qed.

(** X21. Append then Load on the pgx store, with codecs that decode what
    they encoded: after a successful Append of a non-empty batch at the
    stream's current version, Load from any version at or below it returns
    what it returned before followed by the batch, in order, and lastVersion
    the version Append assigned last. *)
Theorem X21_pgx_append_then_load h db s ctx (streamID : string) events md
    (fromVersion : Z) (old : list any) (lastOld : Z) :
  events <> [] ->
  let expected := select_current_version db streamID in
  Int64.min_int64 <= expected ->
  expected + Z.of_nat (length events) <= Int64.max_int64 ->
  (forall e codec pl, e ∈ events ->
     typeRegistry s !! EventType e = Some codec ->
     Encode codec e = Ok pl -> Decode codec (jsonb_text pl) = Ok e) ->
  let r := Append json_Marshal h db s ctx streamID expected events md in
  r.2.2 = None ->
  fromVersion <= expected ->
  Load jsonb_text db s streamID fromVersion = (old, lastOld, None) ->
  Load jsonb_text r.1.2 s streamID fromVersion =
    (old ++ events, expected + Z.of_nat (length events), None).
Proof.
  intros Hne expected Hmin Hmax Hrt r Hok Hfrom Hold.
  destruct (pgx_Append_table json_Marshal h db s ctx streamID expected events md)
    as [[err Hr]|[(Hnil & _)|(tx & cv & Hrun & _ & Hr)]]; [| done |].
  { fold r in Hr. rewrite Hr in Hok. done. }
  fold r in Hr.
  set (hm := merge_extracted (extractor s) ctx h md) in *.
  destruct (insert_events_written json_Marshal s hm.1 hm.2 streamID expected events
              db expected tx cv Hrun) as (rows & Htx & Hlen & Hrows).
  destruct (insert_events_rows json_Marshal s hm.1 hm.2 streamID expected
              events db expected tx cv Hrun Hmin Hmax)
    as (rows' & Heq & -> & _ & Hver).
  subst tx. apply app_inv_head in Heq. subst rows'.
  rewrite Hr. cbn [fst snd]. unfold Load in *.
  assert (Hsel : select_events (db ++ rows) streamID fromVersion =
                   select_events db streamID fromVersion ++ rows).
  { unfold select_events, table in *. rewrite filter_app.
    assert (Hall : filter (fun r => stream_id r = streamID /\ fromVersion < version r)
                     rows = rows).
    { apply filter_all. apply Forall_lookup. intros i row Hi.
      destruct (Hver i row Hi) as [-> ->]. split; [done|lia]. }
    rewrite Hall. apply order_by_version_app.
    - by apply (consecutive_sorted rows expected), Hver.
    - apply Forall_forall. intros x Hx.
      apply list_elem_of_filter in Hx as [[Hsid _] Hx].
      apply Forall_lookup. intros i row Hi.
      destruct (Hver i row Hi) as [_ ->].
      pose proof (select_current_version_upper db streamID x Hx Hsid).
      fold expected in H0. lia. }
  rewrite Hsel, decode_rows_app.
  destruct (decode_rows jsonb_text s (select_events db streamID fromVersion) [] 0)
    as [[out lastv]|err] eqn:Hdec; [|done].
  injection Hold as -> ->.
  rewrite (decode_written s rows events old lastOld Hlen); [|  |done].
  - do 2 f_equal. rewrite last_lookup.
    destruct events as [|e events]; [done|]. simpl in Hlen.
    destruct (lookup_lt_is_Some_2 rows (Nat.pred (length rows))) as [row Hrow];
      [lia|].
    rewrite Hrow. simpl. destruct (Hver _ row Hrow) as [_ ->].
    rewrite Hlen. simpl length. lia.
  - intros i row Hi.
    destruct (Hrows i row Hi) as (e & codec & He & _ & Hty & Hreg & Henc & _).
    by exists e, codec.
Qed.

End PgxRoundTrip.

(** ** The PostgreSQL store: snapshots *)

Section PgxSnapshots.
Import ges pgx.
Context {any : Type} `{GoAny any}.
Variable jsonb_text : bytes -> bytes.
Variable json_Marshal_state : any -> result bytes.
Variable json_Unmarshal_object : bytes -> result any.
Implicit Types (snaps : gmap string snapshot_row).

(** X22. Snapshots of the pgx store.  LoadSnapshot of a stream without a
    row returns Found=false and no error.  SaveSnapshot keeps one row per
    stream: a second save for a stream replaces version and state but keeps
    the timestamp of the first save, which is what LoadSnapshot then returns
    as At; the rows of other streams are untouched.  A state that json.Marshal
    rejects is not saved (the error is returned as it is), and a stored state
    that does not unmarshal into an object makes LoadSnapshot fail with
    Found=false. *)
Theorem X22_pgx_snapshot_upsert snaps (now1 now2 : Time) (streamID : string)
    (v1 v2 : Z) (state1 state2 : any) (data1 data2 : bytes) :
  json_Marshal_state state1 = Ok data1 ->
  json_Marshal_state state2 = Ok data2 ->
  snaps !! streamID = None ->
  let s1 := (SaveSnapshot json_Marshal_state snaps now1 streamID v1 state1).1 in
  let s2 := (SaveSnapshot json_Marshal_state s1 now2 streamID v2 state2).1 in
  LoadSnapshot jsonb_text json_Unmarshal_object snaps streamID =
    (Snapshot_not_found, None)
  /\ s2 !! streamID =
       Some {| snap_version := v2; snap_state := data2; snap_at := now1 |}
  /\ (forall other : string, other <> streamID -> s2 !! other = snaps !! other)
  /\ (forall decoded : any,
        json_Unmarshal_object (jsonb_text data2) = Ok decoded ->
        LoadSnapshot jsonb_text json_Unmarshal_object s2 streamID =
          ({| State := decoded; Version := v2; Found := true; At_ := now1 |}, None))
  /\ (forall err : error,
        json_Unmarshal_object (jsonb_text data2) = Err err ->
        LoadSnapshot jsonb_text json_Unmarshal_object s2 streamID =
          (Snapshot_not_found,
           Some (wrapError "ges-pgx: could not unmarshal snapshot: %w" err)))
  /\ (forall (now : Time) (v : Z) (state : any) (err : error),
        json_Marshal_state state = Err err ->
        SaveSnapshot json_Marshal_state s2 now streamID v state = (s2, Some err)).
Proof.
  intros Hm1 Hm2 Hnone s1 s2.
  assert (Hs1 : s1 = <[streamID := {| snap_version := v1; snap_state := data1;
                                      snap_at := now1 |}]> snaps).
  { subst s1. unfold SaveSnapshot. by rewrite Hm1, Hnone. }
  assert (Hs2 : s2 = <[streamID := {| snap_version := v2; snap_state := data2;
                                      snap_at := now1 |}]> s1).
  { subst s2. unfold SaveSnapshot. rewrite Hm2, Hs1, lookup_insert_eq. done. }
  split; [|split; [|split; [|split; [|split]]]].
  - unfold LoadSnapshot. by rewrite Hnone.
  - rewrite Hs2. apply lookup_insert_eq.
  - intros other Hother. rewrite Hs2, Hs1. by rewrite !lookup_insert_ne.
  - intros decoded Hdec. unfold LoadSnapshot.
    rewrite Hs2, lookup_insert_eq. simpl. by rewrite Hdec.
  - intros err Hdec. unfold LoadSnapshot.
    rewrite Hs2, lookup_insert_eq. simpl. by rewrite Hdec.
  - intros now v state err Herr. unfold SaveSnapshot. by rewrite Herr.
Qed.

End PgxSnapshots.

Lemma X17_witness :
  pgsample.first_append.2.2 = None
  /\ exists rows, pgsample.first_append.1.2 = [] ++ rows /\ length rows = 1%nat.
Proof.
  assert (Hok : pgsample.first_append.2.2 = None) by reflexivity.
  split; [exact Hok|].
  destruct (X17_pgx_append_only (any := sample.value) (Ctx := unit)
              sample.marshal_any ∅ [] pgsample.store tt "Stream:1" 0
              [sample.Opened "1"] None) as (rows & Hrows & _ & Hdetail).
  exists rows. split; [exact Hrows|]. exact (proj1 (Hdetail Hok)).
Defined.

Lemma X18_witness :
  pgx.keys_unique [] /\ pgx.keys_unique pgsample.first_append.1.2.
Proof.
  assert (Hnil : pgx.keys_unique []) by (intros i j ri rj Hi; done).
  split; [exact Hnil|].
  exact (X18_pgx_append_keeps_keys_unique (any := sample.value) (Ctx := unit)
           sample.marshal_any ∅ [] pgsample.store tt "Stream:1" 0
           [sample.Opened "1"] None Hnil).
Defined.

Lemma X19_witness :
  pgx.Load pgsample.jsonb_same pgsample.shuffled pgsample.store "Stream:1" 0 =
    ([sample.Opened "a"; sample.Opened "b"], 2, None)
  /\ exists rows : pgx.table,
       StronglySorted (fun a b => pgx.version a <= pgx.version b) rows
       /\ length [sample.Opened "a"; sample.Opened "b"] = length rows.
Proof.
  assert (Hload : pgx.Load pgsample.jsonb_same pgsample.shuffled pgsample.store
                    "Stream:1" 0 =
                  ([sample.Opened "a"; sample.Opened "b"], 2, None))
    by reflexivity.
  split; [exact Hload|].
  destruct (X19_pgx_load_reads_in_version_order (any := sample.value) (Ctx := unit)
              pgsample.jsonb_same pgsample.shuffled pgsample.store "Stream:1" 0
              _ _ Hload) as (rows & _ & Hsorted & Hlen & _).
  exists rows. split; [exact Hsorted|exact Hlen].
Defined.

Lemma X20_witness :
  (forall r, r ∈ pgsample.shuffled -> pgx.stream_id r = "Stream:1"%string ->
     pgx.version r <= 2)
  /\ pgx.Load pgsample.jsonb_same pgsample.shuffled pgsample.store "Stream:1" 2 =
       ([], 0, None)
  /\ (pgx.Load pgsample.jsonb_same pgsample.with_unknown pgsample.store
        "Stream:1" 0).2 = Some (ges.fmtError "unknown event type: %s" ["Closed"%string])
  /\ (pgx.Load pgsample.jsonb_same pgsample.with_unknown pgsample.store
        "Stream:1" 0).1 = ([], 0).
Proof.
  assert (Hall : forall r, r ∈ pgsample.shuffled ->
            pgx.stream_id r = "Stream:1"%string -> pgx.version r <= 2).
  { intros r Hr _. unfold pgsample.shuffled in Hr.
    apply elem_of_cons in Hr as [->|Hr]; [simpl; lia|].
    apply list_elem_of_singleton in Hr as ->. simpl. lia. }
  assert (Herr : (pgx.Load pgsample.jsonb_same pgsample.with_unknown pgsample.store
                    "Stream:1" 0).2 =
                 Some (ges.fmtError "unknown event type: %s" ["Closed"%string]))
    by reflexivity.
  split; [exact Hall|]. split; [|split; [exact Herr|]].
  - exact (proj1 (X20_pgx_load_edges (any := sample.value) (Ctx := unit)
                    pgsample.jsonb_same pgsample.shuffled pgsample.store
                    "Stream:1" 2) Hall).
  - exact (proj1 (proj1 (proj2
      (X20_pgx_load_edges (any := sample.value) (Ctx := unit)
         pgsample.jsonb_same pgsample.with_unknown pgsample.store "Stream:1" 0))
      _ Herr)).
Defined.

Lemma pgsample_codec_round_trip (e : sample.value)
    (codec : ges.EventCodec sample.value) (pl : ges.bytes) :
  e ∈ [sample.Opened "2"] ->
  pgx.typeRegistry pgsample.store !! ges.EventType e = Some codec ->
  ges.Encode codec e = ges.Ok pl ->
  ges.Decode codec (pgsample.jsonb_same pl) = ges.Ok e.
Proof.
  intros He Hreg Henc. apply list_elem_of_singleton in He as ->.
  assert (Hcodec : pgx.typeRegistry pgsample.store
                     !! ges.EventType (sample.Opened "2") =
                   Some pgsample.opened_codec) by reflexivity.
  rewrite Hcodec in Hreg. injection Hreg as <-.
  simpl in Henc. injection Henc as <-. reflexivity.
Qed.

Lemma X21_witness :
  [sample.Opened "2"] <> []
  /\ (pgx.Append sample.marshal_any ∅ pgsample.first_append.1.2 pgsample.store tt
        "Stream:1" (pgx.select_current_version pgsample.first_append.1.2 "Stream:1")
        [sample.Opened "2"] None).2.2 = None
  /\ pgx.Load pgsample.jsonb_same pgsample.first_append.1.2 pgsample.store
       "Stream:1" 0 = ([sample.Opened "1"], 1, None)
  /\ pgx.Load pgsample.jsonb_same
       (pgx.Append sample.marshal_any ∅ pgsample.first_append.1.2 pgsample.store tt
          "Stream:1" (pgx.select_current_version pgsample.first_append.1.2 "Stream:1")
          [sample.Opened "2"] None).1.2
       pgsample.store "Stream:1" 0 =
     ([sample.Opened "1"] ++ [sample.Opened "2"],
      pgx.select_current_version pgsample.first_append.1.2 "Stream:1" +
      Z.of_nat (length [sample.Opened "2"]), None).
Proof.
  assert (Hne : [sample.Opened "2"] <> []) by discriminate.
  assert (Hok : (pgx.Append sample.marshal_any ∅ pgsample.first_append.1.2
                   pgsample.store tt "Stream:1"
                   (pgx.select_current_version pgsample.first_append.1.2 "Stream:1")
                   [sample.Opened "2"] None).2.2 = None) by reflexivity.
  assert (Hold : pgx.Load pgsample.jsonb_same pgsample.first_append.1.2
                   pgsample.store "Stream:1" 0 = ([sample.Opened "1"], 1, None))
    by reflexivity.
  assert (Hmin : Int64.min_int64 <=
                 pgx.select_current_version pgsample.first_append.1.2 "Stream:1")
    by (vm_compute; discriminate).
  assert (Hmax : pgx.select_current_version pgsample.first_append.1.2 "Stream:1" +
                 Z.of_nat (length [sample.Opened "2"]) <= Int64.max_int64)
    by (vm_compute; discriminate).
  assert (Hfrom : 0 <= pgx.select_current_version pgsample.first_append.1.2
                         "Stream:1") by (vm_compute; discriminate).
  split; [exact Hne|]. split; [exact Hok|]. split; [exact Hold|].
  exact (X21_pgx_append_then_load (any := sample.value) (Ctx := unit)
           sample.marshal_any pgsample.jsonb_same ∅ pgsample.first_append.1.2
           pgsample.store tt "Stream:1" [sample.Opened "2"] None 0
           [sample.Opened "1"] 1 Hne Hmin Hmax pgsample_codec_round_trip
           Hok Hfrom Hold).
Defined.

Lemma X22_witness :
  pgsample.marshal_state (sample.Str "s1") = ges.Ok (String.list_byte_of_string "s1")
  /\ pgsample.marshal_state (sample.Str "s2") = ges.Ok (String.list_byte_of_string "s2")
  /\ (∅ : gmap string pgx.snapshot_row) !! "Stream:1"%string = None
  /\ (pgx.SaveSnapshot pgsample.marshal_state
        (pgx.SaveSnapshot pgsample.marshal_state ∅ 10 "Stream:1" 1
           (sample.Str "s1")).1
        20 "Stream:1" 2 (sample.Str "s2")).1 !! "Stream:1"%string =
     Some {| pgx.snap_version := 2;
             pgx.snap_state := String.list_byte_of_string "s2";
             pgx.snap_at := 10 |}.
Proof.
  assert (H1 : pgsample.marshal_state (sample.Str "s1") =
               ges.Ok (String.list_byte_of_string "s1")) by reflexivity.
  assert (H2 : pgsample.marshal_state (sample.Str "s2") =
               ges.Ok (String.list_byte_of_string "s2")) by reflexivity.
  assert (H0 : (∅ : gmap string pgx.snapshot_row) !! "Stream:1"%string = None)
    by reflexivity.
  split; [exact H1|]. split; [exact H2|]. split; [exact H0|].
  exact (proj1 (proj2
    (X22_pgx_snapshot_upsert (any := sample.value) pgsample.jsonb_same
       pgsample.marshal_state pgsample.unmarshal_object
       ∅ 10 20 "Stream:1" 1 2 (sample.Str "s1") (sample.Str "s2")
       _ _ H1 H2 H0))).
Defined.

(** ** The example's repository on the in-memory store *)

Section RepositoryMore.
Import ges.
Context {any : Type} `{GoAny any} {Ctx : Type}.
Variable view : any -> account.event_view.
Variable command : any -> account.command_view.
Variable event_value : account.event_view -> any.
Variable is_nil : any -> bool.
Variable json_to_snapshot : any -> result repository.AccountSnapshot.
Implicit Types (st : mem.Store any Ctx) (h : heap any) (md : Metadata).
Implicit Types (a : account.Account any) (es : list any) (id : string).

Local Abbreviation Load := (repository.Load view is_nil json_to_snapshot).

(** The payloads of a stream, in storage order. *)
Local Abbreviation history st id :=
  (mem.payload <$> mem.stream_of st ("Account:" ++ id)%string).

Lemma flushed_no_pending a : account.pend a = [] -> account.flushed a = a.
Proof. destruct a. simpl. by intros ->. Qed.

Lemma pend_Restore es a :
  account.pend (account.Restore view es a) = account.pend a.
Proof. apply Restore_keeps_pend. Qed.

(** Load when the stream has no snapshot: a replay of the whole stream on
    the zero account, then the version check. *)
Lemma Load_without_snapshot st id :
  mem.snapshots st !! ("Account:" ++ id)%string = None ->
  mem.gapless (mem.stream_of st ("Account:" ++ id)%string) ->
  Load st id =
    let a := account.Restore view (history st id) account.zero in
    if negb (mem.current_version st ("Account:" ++ id)%string =? account.Version a)
    then Err (fmtError "version mismatch after Restore: aggregate=%d, store=%d"
                [pretty (account.Version a);
                 pretty (mem.current_version st ("Account:" ++ id)%string)])
    else Ok a.
Proof.
  intros Hsnap Hgap. unfold repository.Load, mem.LoadSnapshot.
  rewrite Hsnap. unfold repository.decodeSnapshot. simpl Found. cbn [negb orb].
  cbv iota beta.
  change (account.Version account.zero) with 0.
  rewrite (Load_closed st _ 0 Hgap), (gapless_filter _ 0 Hgap).
  change (Z.to_nat 0) with 0%nat. rewrite drop_0.
  rewrite (gapless_last _ Hgap). done.
Qed.

(** Save without pending events: no call to the store. *)
Lemma Save_nothing h st ctx (now : Time) a md :
  account.pend a = [] -> repository.Save h st ctx now a md = (h, st, a, None).
Proof.
  intros Hp. unfold repository.Save, account.Flush. rewrite Hp. simpl.
  fold (account.flushed a). by rewrite flushed_no_pending.
Qed.

(** Save with pending events at a version the stream is not at. *)
Lemma Save_conflict h st ctx (now : Time) a md :
  let r := repository.Save h st ctx now a md in
  let streamID := account.StreamID a in
  let expected :=
    Int64.sub (account.version a) (Z.of_nat (length (account.pend a))) in
  account.pend a <> [] -> expected <> mem.current_version st streamID ->
  r.1.1.2 = st
  /\ r.1.2 = account.flushed a
  /\ r.2 = Some (VersionConflictError streamID expected
                   (mem.current_version st streamID)).
Proof.
  intros r streamID expected. subst r streamID expected.
  unfold repository.Save, account.Flush.
  fold (account.flushed a).
  change (account.StreamID (account.flushed a)) with (account.StreamID a).
  intros Hp Hne. destruct (account.pend a) as [|e es] eqn:Hpend; [done|].
  change (length (e :: es) =? 0)%nat with false. cbv iota.
  rewrite Append_mismatch by done. done.
Qed.

(** Save with pending events at the version the stream is at. *)
Lemma Save_match h st ctx (now : Time) a md :
  let r := repository.Save h st ctx now a md in
  let streamID := account.StreamID a in
  let expected :=
    Int64.sub (account.version a) (Z.of_nat (length (account.pend a))) in
  account.pend a <> [] -> expected = mem.current_version st streamID ->
  r.2 = None
  /\ r.1.2 = account.flushed a
  /\ mem.payload <$> mem.stream_of r.1.1.2 streamID =
       (mem.payload <$> mem.stream_of st streamID) ++ account.pend a
  /\ mem.snapshots r.1.1.2 = mem.snapshots st
  /\ (forall other : string, other <> streamID ->
        mem.stream_of r.1.1.2 other = mem.stream_of st other).
Proof.
  intros r streamID expected. subst r streamID expected.
  unfold repository.Save, account.Flush.
  fold (account.flushed a).
  change (account.StreamID (account.flushed a)) with (account.StreamID a).
  intros Hp ->. destruct (account.pend a) as [|e es] eqn:Hpend; [done|].
  change (length (e :: es) =? 0)%nat with false. cbv iota.
  rewrite Append_match by done. cbn [fst snd].
  split; [done|]. split; [done|]. split; [|split; [done|]].
  - rewrite stream_of_insert, decide_True by done.
    by rewrite fmap_app, payload_stamped.
  - intros other Hother. rewrite stream_of_insert. by rewrite decide_False.
Qed.

(** X23. The three outcomes of the repository's Save on the in-memory
    store.  With no pending event it does nothing at all: no call to the
    store, so no version check either.  With pending events and a stream whose
    current version is not version - len(pending), it returns the version
    conflict and leaves the store unchanged, but the account has been flushed:
    its pending events are gone.  Otherwise it succeeds and the account's
    stream is extended by exactly the pending events. *)
Theorem X23_save_outcomes h st ctx (now : Time) a md :
  let r := repository.Save h st ctx now a md in
  let streamID := account.StreamID a in
  let expected :=
    Int64.sub (account.version a) (Z.of_nat (length (account.pend a))) in
  (account.pend a = [] -> r = (h, st, a, None))
  /\ (account.pend a <> [] -> expected <> mem.current_version st streamID ->
        r.1.1.2 = st
        /\ r.1.2 = account.flushed a
        /\ r.2 = Some (VersionConflictError streamID expected
                         (mem.current_version st streamID)))
  /\ (account.pend a <> [] -> expected = mem.current_version st streamID ->
        r.2 = None
        /\ r.1.2 = account.flushed a
        /\ mem.payload <$> mem.stream_of r.1.1.2 streamID =
             (mem.payload <$> mem.stream_of st streamID) ++ account.pend a
        /\ mem.snapshots r.1.1.2 = mem.snapshots st
        /\ (forall other : string, other <> streamID ->
              mem.stream_of r.1.1.2 other = mem.stream_of st other)).
Proof.
  intros r streamID expected. split; [|split].
  - apply Save_nothing.
  - apply Save_conflict.
  - apply Save_match.
Qed.

(** X24. Without a snapshot, the repository's Load on a reachable
    in-memory store never fails: it returns the replay of all the stream's
    events on a fresh account, at the stream's current version and with no
    pending event.  For a stream without events this is the zero account: an
    unknown id is not an error. *)
Theorem X24_load_replays_stream (sst : heap any * mem.Store any Ctx) id :
  mem.reachable sst ->
  mem.snapshots sst.2 !! ("Account:" ++ id)%string = None ->
  mem.current_version sst.2 ("Account:" ++ id)%string <= Int64.max_int64 ->
  Load sst.2 id = Ok (account.Restore view (history sst.2 id) account.zero)
  /\ account.version (account.Restore view (history sst.2 id) account.zero) =
       mem.current_version sst.2 ("Account:" ++ id)%string
  /\ account.pend (account.Restore view (history sst.2 id) account.zero) = []
  /\ (mem.stream_of sst.2 ("Account:" ++ id)%string = [] ->
        Load sst.2 id = Ok account.zero).
Proof.
  intros Hreach Hsnap Hmax. apply versions_ok_reachable in Hreach.
  specialize (Hreach ("Account:" ++ id)%string).
  assert (Hv : account.version
                 (account.Restore view (history sst.2 id) account.zero) =
               mem.current_version sst.2 ("Account:" ++ id)%string).
  { rewrite (version_Restore_exact view).
    - rewrite length_fmap. unfold mem.current_version.
      change (account.version (account.zero (any := any))) with 0. lia.
    - vm_compute. split; discriminate.
    - rewrite length_fmap.
      unfold Int64.in_range, mem.current_version, Int64.min_int64,
        Int64.max_int64 in *.
      change (account.version (account.zero (any := any))) with 0. lia. }
  assert (Hload : Load sst.2 id =
                    Ok (account.Restore view (history sst.2 id) account.zero)).
  { rewrite Load_without_snapshot by done. cbv zeta.
    unfold account.Version. rewrite Hv, Z.eqb_refl. done. }
  split; [done|]. split; [done|]. split.
  - by rewrite pend_Restore.
  - intros Hnil. rewrite Hload, Hnil. done.
Qed.

Lemma Load_replays st id :
  mem.versions_ok st ->
  mem.snapshots st !! ("Account:" ++ id)%string = None ->
  mem.current_version st ("Account:" ++ id)%string <= Int64.max_int64 ->
  Load st id = Ok (account.Restore view (history st id) account.zero)
  /\ account.version (account.Restore view (history st id) account.zero) =
       mem.current_version st ("Account:" ++ id)%string.
Proof.
  intros Hok Hsnap Hmax. specialize (Hok ("Account:" ++ id)%string).
  assert (Hv : account.version
                 (account.Restore view (history st id) account.zero) =
               mem.current_version st ("Account:" ++ id)%string).
  { rewrite (version_Restore_exact view).
    - rewrite length_fmap. unfold mem.current_version.
      change (account.version (account.zero (any := any))) with 0. lia.
    - vm_compute. split; discriminate.
    - rewrite length_fmap.
      unfold Int64.in_range, mem.current_version, Int64.min_int64,
        Int64.max_int64 in *.
      change (account.version (account.zero (any := any))) with 0. lia. }
  split; [|done].
  rewrite Load_without_snapshot by done. cbv zeta.
  unfold account.Version. rewrite Hv, Z.eqb_refl. done.
Qed.

Lemma Save_store h st ctx (now : Time) a md :
  (repository.Save h st ctx now a md).1.1.2 = st
  \/ (repository.Save h st ctx now a md).1.1.2 =
       (mem.Append h st ctx now (account.StreamID a)
          (Int64.sub (account.version a) (Z.of_nat (length (account.pend a))))
          (account.pend a) md).1.2.
Proof.
  unfold repository.Save, account.Flush.
  destruct (length (account.pend a) =? 0)%nat; [by left|]. right.
  change (account.StreamID _) with (account.StreamID a).
  by destruct (mem.Append _ _ _ _ _ _ _ _) as [[h1 st1] [v err]].
Qed.

Lemma Save_error_keeps h st ctx (now : Time) a md err :
  (repository.Save h st ctx now a md).2 = Some err ->
  (repository.Save h st ctx now a md).1.1.2 = st.
Proof.
  unfold repository.Save, account.Flush.
  fold (account.flushed a).
  change (account.StreamID (account.flushed a)) with (account.StreamID a).
  destruct (account.pend a) as [|e es]; [done|].
  change (length (e :: es) =? 0)%nat with false. cbv iota.
  destruct (decide (mem.current_version st (account.StreamID a) =
                    Int64.sub (account.version a)
                      (Z.of_nat (length (e :: es))))) as [Heq|Hne].
  - rewrite <- Heq. rewrite Append_match by done. done.
  - rewrite Append_mismatch by done. done.
Qed.

(** X25. Save then Load gives the account back.  On a reachable
    in-memory store without a snapshot for the account: when an account was
    loaded, events were recorded on it (keeping its id) and it is saved, the
    Save succeeds, and a Load of the same id afterwards returns that account
    with its pending buffer emptied: same id, owner, balance, opened flag and
    version. *)
Theorem X25_save_then_load (sst : heap any * mem.Store any Ctx) h ctx
    (now : Time) id a0 es md :
  mem.reachable sst ->
  mem.snapshots sst.2 !! ("Account:" ++ id)%string = None ->
  Load sst.2 id = Ok a0 ->
  let a := account.record_all view es a0 in
  account.id a = id ->
  mem.current_version sst.2 ("Account:" ++ id)%string + Z.of_nat (length es)
    <= Int64.max_int64 ->
  let r := repository.Save h sst.2 ctx now a md in
  r.2 = None
  /\ r.1.2 = account.flushed a
  /\ Load r.1.1.2 id = Ok (account.flushed a).
Proof.
  intros Hreach Hsnap Hload a Hid Hmax r.
  apply versions_ok_reachable in Hreach.
  set (sid := ("Account:" ++ id)%string) in *.
  assert (Hcur : mem.current_version sst.2 sid <= Int64.max_int64) by lia.
  destruct (Load_replays sst.2 id Hreach Hsnap Hcur) as [Hload' Hv0].
  fold sid in Hv0.
  rewrite Hload in Hload'. injection Hload' as Ha0.
  assert (Hp0 : account.pend a0 = []) by (rewrite Ha0; by rewrite pend_Restore).
  assert (Hv0' : account.version a0 = mem.current_version sst.2 sid)
    by by rewrite Ha0.
  assert (Hflush : account.flushed a = account.Restore view es a0).
  { subst a. rewrite <- (Restore_flushed view).
    by rewrite flushed_no_pending. }
  assert (Hpend : account.pend a = es).
  { subst a. rewrite pend_record_all, Hp0. done. }
  assert (Hcv0 : 0 <= mem.current_version sst.2 sid)
    by (unfold mem.current_version; lia).
  assert (Hva : account.version a =
                mem.current_version sst.2 sid + Z.of_nat (length es)).
  { change (account.version a) with (account.version (account.flushed a)).
    rewrite Hflush, (version_Restore_exact view); rewrite Hv0'; [done| |];
      unfold Int64.in_range, Int64.min_int64, Int64.max_int64 in *; lia. }
  assert (Hsid : account.StreamID a = sid).
  { unfold account.StreamID. by rewrite Hid. }
  assert (Hexp : Int64.sub (account.version a)
                   (Z.of_nat (length (account.pend a))) =
                 mem.current_version sst.2 sid).
  { rewrite Hpend, Hva. unfold Int64.sub.
    replace (mem.current_version sst.2 sid + Z.of_nat (length es)
             - Z.of_nat (length es)) with (mem.current_version sst.2 sid)
      by lia.
    apply wrap_in_range.
    unfold Int64.in_range, Int64.min_int64, Int64.max_int64 in *. lia. }
  pose proof (Save_nothing h sst.2 ctx now a md) as Hnone.
  pose proof (Save_match h sst.2 ctx now a md) as Hsome.
  cbv zeta in Hsome. fold r in Hnone, Hsome. rewrite Hsid in Hsome.
  destruct es as [|e es].
  - rewrite (Hnone Hpend). cbn [fst snd].
    rewrite flushed_no_pending by done. split; [done|]. split; [done|].
    subst a. simpl. rewrite Hload. done.
  - assert (Hne : account.pend a <> []) by (rewrite Hpend; done).
    destruct (Hsome Hne Hexp) as (Hr2 & Hr1 & Hhist & Hsnaps & _).
    split; [done|]. split; [done|].
    assert (Hok' : mem.versions_ok r.1.1.2).
    { destruct (Save_store h sst.2 ctx now a md) as [Hs|Hs]; fold r in Hs;
        rewrite Hs; [done|]. by apply versions_ok_Append. }
    assert (Hcur' : mem.current_version r.1.1.2 sid <= Int64.max_int64).
    { unfold mem.current_version.
      rewrite <- (length_fmap mem.payload), Hhist, length_app, length_fmap, Hpend.
      unfold mem.current_version in Hmax. lia. }
    destruct (Load_replays r.1.1.2 id Hok') as [Hload2 _];
      [by rewrite Hsnaps|done|].
    rewrite Hload2. fold sid. rewrite Hhist, Hpend. f_equal.
    unfold account.Restore at 1. rewrite foldl_app.
    fold (account.Restore view (mem.payload <$> mem.stream_of sst.2 sid)
            account.zero).
    fold (account.Restore view (e :: es)
            (account.Restore view (mem.payload <$> mem.stream_of sst.2 sid)
               account.zero)).
    fold sid in Ha0. rewrite <- Ha0. by rewrite Hflush.
Qed.

Lemma accountIDFromStreamID_StreamID a :
  repository.accountIDFromStreamID (account.StreamID a) = account.id a.
Proof.
  unfold repository.accountIDFromStreamID, repository.HasPrefix,
    repository.TrimPrefix, repository.accountPrefix, account.StreamID.
  by rewrite after_prefix_app.
Qed.

(** X26. A snapshot state taken with serializeState gives the account
    back (without its pending events) when Load seeds a fresh account from
    it, exactly when the account's opened flag agrees with its id being
    non-empty: the flag is not stored, Load recomputes it from the id.
    Handle keeps that agreement, so it holds of every account built by
    commands alone; an account opened by a replayed event with an empty id
    would come back closed. *)
Theorem X26_snapshot_state_round_trip a :
  (repository.seed (repository.serializeState a) account.zero = account.flushed a
   <-> account.opened a = negb (bool_decide (account.id a = ""%string)))
  /\ ((forall ev, ev <> account.OtherEvent -> view (event_value ev) = ev) ->
      account.opened a = negb (bool_decide (account.id a = ""%string)) ->
      forall cmd,
        account.opened (account.Handle view command event_value cmd a).1 =
          negb (bool_decide
                  (account.id (account.Handle view command event_value cmd a).1 =
                   ""%string))).
Proof.
  split.
  - unfold repository.seed, repository.serializeState, account.flushed.
    cbn [repository.ID repository.Owner repository.Balance repository.Version].
    rewrite accountIDFromStreamID_StreamID. unfold account.Version. split.
    + intros Heq. by injection Heq.
    + intros <-. done.
  - intros Hview Hinv cmd. unfold account.Handle.
    destruct (command cmd) as [accountID o initial|accountID amount|ty]; [| |done].
    + destruct (account.opened a) eqn:Hop; [cbn [fst]; by rewrite Hop|].
      destruct (bool_decide_reflect (accountID = ""%string)) as [Hid|Hid];
        [cbn [fst]; by rewrite Hop|].
      destruct (initial <? 0); [cbn [fst]; by rewrite Hop|].
      cbn [fst]. unfold account.record, account.Apply.
      rewrite Hview by done. cbn. by rewrite bool_decide_false.
    + destruct (account.opened a) eqn:Hop; [|cbn [fst negb]; by rewrite Hop].
      cbn [negb]. destruct (amount <=? 0); [cbn [fst]; by rewrite Hop|].
      cbn [fst]. unfold account.record, account.Apply.
      rewrite Hview by done. cbn. by rewrite Hop.
Qed.




Lemma Load_pend st id a : Load st id = Ok a -> account.pend a = [].
Proof.
  unfold repository.Load.
  destruct (mem.LoadSnapshot st _) as [snap [e|]]; [done|].
  destruct (repository.decodeSnapshot _ _ snap) as [[s ok] [e|]]; [done|].
  destruct (mem.Load st _ _) as [[evs lastv] [e|]]; [done|].
  destruct (negb _); [done|]. intros [= <-].
  rewrite pend_Restore. by destruct ok.
Qed.

(** X29. The service's Handle is all or nothing on the in-memory store.
    When it returns an error (the account does not load, the command is
    rejected, or the append conflicts) the store is exactly as before.  When
    it succeeds, the command recorded exactly one event on the loaded account,
    and the store differs by that one event, appended to the stream named
    after the account's id; no snapshot and no other stream changes.  For an
    accepted OpenAccountCommand that stream is the one named after the
    command's AccountID. *)
Theorem X29_service_handle_effect h st ctx (now : Time) cmd md :
  let r := repository.service_Handle view command event_value is_nil
             json_to_snapshot h st ctx now cmd md in
  (forall err, r.2 = Some err -> r.1.2 = st)
  /\ (r.2 = None ->
      exists acc ev,
        Load st (repository.extractAccountID command cmd) = Ok acc
        /\ account.Handle view command event_value cmd acc =
             (account.record view ev acc, None)
        /\ (mem.payload <$> mem.stream_of r.1.2
                              (account.StreamID (account.record view ev acc))) =
             (mem.payload <$> mem.stream_of st
                                (account.StreamID (account.record view ev acc)))
             ++ [ev]
        /\ mem.snapshots r.1.2 = mem.snapshots st
        /\ (forall other : string,
              other <> account.StreamID (account.record view ev acc) ->
              mem.stream_of r.1.2 other = mem.stream_of st other))
  /\ ((forall ev, ev <> account.OtherEvent -> view (event_value ev) = ev) ->
      forall accountID o initial,
        command cmd = account.OpenAccountCommand accountID o initial ->
        r.2 = None ->
        history r.1.2 accountID =
          history st accountID ++
          [event_value (account.AccountOpened accountID o initial)]).
Proof.
  intros r.
  assert (Hsucc : r.2 = None ->
      exists acc ev,
        Load st (repository.extractAccountID command cmd) = Ok acc
        /\ account.Handle view command event_value cmd acc =
             (account.record view ev acc, None)
        /\ (mem.payload <$> mem.stream_of r.1.2
                              (account.StreamID (account.record view ev acc))) =
             (mem.payload <$> mem.stream_of st
                                (account.StreamID (account.record view ev acc)))
             ++ [ev]
        /\ mem.snapshots r.1.2 = mem.snapshots st
        /\ (forall other : string,
              other <> account.StreamID (account.record view ev acc) ->
              mem.stream_of r.1.2 other = mem.stream_of st other)).
  { subst r. unfold repository.service_Handle.
    destruct (Load st _) as [acc|e] eqn:Hload; [|done].
    assert (Hrec : (account.Handle view command event_value cmd acc).2 = None ->
                   exists ev, account.Handle view command event_value cmd acc =
                                (account.record view ev acc, None)).
    { unfold account.Handle.
      destruct (command cmd) as [accountID o initial|accountID amount|ty]; [| |done].
      - destruct (account.opened acc); [done|].
        case_bool_decide; [done|]. destruct (initial <? 0); [done|]. eauto.
      - destruct (negb (account.opened acc)); [done|].
        destruct (amount <=? 0); [done|]. eauto. }
    destruct (account.Handle view command event_value cmd acc)
      as [acc1 [e|]] eqn:HH; [done|].
    destruct (Hrec eq_refl) as [ev [= ->]].
    pose proof (Save_conflict h st ctx now (account.record view ev acc) md)
      as Hconf.
    pose proof (Save_match h st ctx now (account.record view ev acc) md)
      as Hok. cbv zeta in Hconf, Hok.
    assert (Hp : account.pend (account.record view ev acc) = [ev]).
    { by rewrite pend_record, (Load_pend _ _ _ Hload). }
    assert (Hne : account.pend (account.record view ev acc) <> [])
      by by rewrite Hp.
    specialize (Hconf Hne). specialize (Hok Hne).
    destruct (decide (Int64.sub (account.version (account.record view ev acc))
                        (Z.of_nat (length (account.pend (account.record view ev acc))))
                      = mem.current_version st
                          (account.StreamID (account.record view ev acc))))
      as [Heq|Hneq].
    - destruct (Hok Heq) as (Hr2 & _ & Hhist & Hsn & Hoth).
      rewrite Hp in Hhist.
      destruct (repository.Save h st ctx now (account.record view ev acc) md)
        as [[[h1 st1] a1] err]. cbn [fst snd] in *. intros _.
      exists acc, ev. done.
    - destruct (Hconf Hneq) as (_ & _ & Hr2).
      destruct (repository.Save h st ctx now (account.record view ev acc) md)
        as [[[h1 st1] a1] err]. cbn [fst snd] in *. by rewrite Hr2. }
  split; [|split; [done|]].
  - subst r. unfold repository.service_Handle. intros err.
    destruct (Load st _) as [acc|e]; [|done].
    destruct (account.Handle view command event_value cmd acc) as [acc1 [e|]];
      [done|].
    pose proof (Save_error_keeps h st ctx now acc1 md) as Hkeep.
    destruct (repository.Save h st ctx now acc1 md) as [[[h1 st1] a1] err1].
    cbn [fst snd] in *. apply Hkeep.
  - intros Hview accountID o initial Hcmd Hnone.
    destruct (Hsucc Hnone) as (acc & ev & Hload & Hh & Hhist & _).
    assert (Hev : ev = event_value (account.AccountOpened accountID o initial)
                  /\ account.id (account.record view ev acc) = accountID).
    { revert Hh. unfold account.Handle. rewrite Hcmd.
      destruct (account.opened acc); [done|].
      case_bool_decide; [done|]. destruct (initial <? 0); [done|].
      intros Heq. apply (f_equal fst) in Heq. cbn [fst] in Heq.
      assert (Hpe : account.pend
                      (account.record view
                         (event_value (account.AccountOpened accountID o initial)) acc)
                    = account.pend (account.record view ev acc)) by by rewrite Heq.
      rewrite !pend_record in Hpe.
      apply app_inj_tail in Hpe as [_ Hpe]. split; [done|].
      rewrite <- Heq. unfold account.record, account.Apply.
      rewrite Hview by done. done. }
    destruct Hev as [Hev Hid].
    unfold account.StreamID in Hhist. rewrite Hid in Hhist.
    rewrite Hhist. by rewrite Hev.
Qed.

End RepositoryMore.

Lemma X23_witness :
  account.pend bank.taro <> []
  /\ (repository.Save bank.store_with_taro.1 bank.store_with_taro.2 tt 20
        bank.taro None).2 = None
  /\ (repository.Save bank.store_with_taro.1 bank.store_with_taro.2 tt 20
        bank.taro None).1.2 = account.flushed bank.taro.
Proof.
  assert (Hne : account.pend bank.taro <> []) by discriminate.
  assert (Hexp : Int64.sub (account.version bank.taro)
                   (Z.of_nat (length (account.pend bank.taro))) =
                 mem.current_version bank.store_with_taro.2
                   (account.StreamID bank.taro)) by reflexivity.
  split; [exact Hne|].
  pose proof (proj2 (proj2
    (X23_save_outcomes bank.store_with_taro.1 bank.store_with_taro.2 tt 20
       bank.taro None)) Hne Hexp) as Hok.
  split; [exact (proj1 Hok)|exact (proj1 (proj2 Hok))].
Defined.

Lemma X24_witness :
  mem.reachable bank.store_with_taro
  /\ repository.Load bank.view bank.is_nil bank.json_to_snapshot
       bank.store_with_taro.2 "7" =
     ges.Ok (account.Restore bank.view
               (mem.payload <$> mem.stream_of bank.store_with_taro.2 "Account:7")
               account.zero).
Proof.
  assert (Hreach : mem.reachable bank.store_with_taro).
  { exists ∅, [],
      [mem.CallAppend tt 10 "Account:7" 0 [bank.AccountOpened "7" "Taro" 1000] None].
    reflexivity. }
  assert (Hsnap : mem.snapshots bank.store_with_taro.2 !! ("Account:" ++ "7")%string
                  = None) by reflexivity.
  assert (Hmax : mem.current_version bank.store_with_taro.2
                   ("Account:" ++ "7")%string <= Int64.max_int64)
    by (vm_compute; discriminate).
  split; [exact Hreach|].
  exact (proj1
    (X24_load_replays_stream bank.view bank.is_nil bank.json_to_snapshot
       bank.store_with_taro "7" Hreach Hsnap Hmax)).
Defined.

Lemma X25_witness :
  repository.Load bank.view bank.is_nil bank.json_to_snapshot
    bank.store_with_taro.2 "7" =
    ges.Ok (account.Restore bank.view [bank.AccountOpened "7" "Taro" 1000]
              account.zero)
  /\ repository.Load bank.view bank.is_nil bank.json_to_snapshot
       (repository.Save bank.store_with_taro.1 bank.store_with_taro.2 tt 20
          bank.taro None).1.1.2 "7" =
     ges.Ok (account.flushed bank.taro).
Proof.
  assert (Hreach : mem.reachable bank.store_with_taro).
  { exists ∅, [],
      [mem.CallAppend tt 10 "Account:7" 0 [bank.AccountOpened "7" "Taro" 1000] None].
    reflexivity. }
  assert (Hsnap : mem.snapshots bank.store_with_taro.2 !! ("Account:" ++ "7")%string
                  = None) by reflexivity.
  assert (Hload : repository.Load bank.view bank.is_nil bank.json_to_snapshot
                    bank.store_with_taro.2 "7" =
                  ges.Ok (account.Restore bank.view
                            [bank.AccountOpened "7" "Taro" 1000] account.zero))
    by reflexivity.
  assert (Hid : account.id
                  (account.record_all bank.view [bank.MoneyDeposited 500]
                     (account.Restore bank.view
                        [bank.AccountOpened "7" "Taro" 1000] account.zero)) =
                "7"%string) by reflexivity.
  assert (Hmax : mem.current_version bank.store_with_taro.2
                   ("Account:" ++ "7")%string +
                 Z.of_nat (length [bank.MoneyDeposited 500]) <= Int64.max_int64)
    by (vm_compute; discriminate).
  split; [exact Hload|].
  exact (proj2 (proj2
    (X25_save_then_load bank.view bank.is_nil bank.json_to_snapshot
       bank.store_with_taro bank.store_with_taro.1 tt 20 "7"
       (account.Restore bank.view [bank.AccountOpened "7" "Taro" 1000]
          account.zero)
       [bank.MoneyDeposited 500] None Hreach Hsnap Hload Hid Hmax))).
Defined.

Lemma X26_witness :
  account.opened bank.taro =
    negb (bool_decide (account.id bank.taro = ""%string))
  /\ account.opened
       (account.Handle bank.view bank.command bank.event_value
          (bank.DepositCommand "7" 25) bank.taro).1 =
     negb (bool_decide
             (account.id
                (account.Handle bank.view bank.command bank.event_value
                   (bank.DepositCommand "7" 25) bank.taro).1 = ""%string)).
Proof.
  assert (Hinv : account.opened bank.taro =
                 negb (bool_decide (account.id bank.taro = ""%string)))
    by reflexivity.
  split; [exact Hinv|].
  exact (proj2
    (X26_snapshot_state_round_trip bank.view bank.command bank.event_value
       bank.taro) bank_view_event_value Hinv (bank.DepositCommand "7" 25)).
Defined.



Lemma X29_witness :
  (repository.service_Handle bank.view bank.command bank.event_value
     bank.is_nil bank.json_to_snapshot
     bank.store_with_taro.1 bank.store_with_taro.2 tt 20
     (bank.DepositCommand "7" 0) None).2 =
    Some (ges.fmtError "invalid deposit amount" [])
  /\ (repository.service_Handle bank.view bank.command bank.event_value
        bank.is_nil bank.json_to_snapshot
        bank.store_with_taro.1 bank.store_with_taro.2 tt 20
        (bank.DepositCommand "7" 0) None).1.2 = bank.store_with_taro.2.
Proof.
  assert (Herr : (repository.service_Handle bank.view bank.command
                    bank.event_value bank.is_nil bank.json_to_snapshot
                    bank.store_with_taro.1 bank.store_with_taro.2 tt 20
                    (bank.DepositCommand "7" 0) None).2 =
                 Some (ges.fmtError "invalid deposit amount" []))
    by reflexivity.
  split; [exact Herr|].
  exact (proj1
    (X29_service_handle_effect bank.view bank.command bank.event_value
       bank.is_nil bank.json_to_snapshot
       bank.store_with_taro.1 bank.store_with_taro.2 tt 20
       (bank.DepositCommand "7" 0) None) _ Herr).
Defined.
